(** * Swap pipeline of swap-uniswap-v3: a shallow embedding

    The repository is a Node.js script ([src/index.js], with older variants in
    [src/old_scripts/index2.js]) that approves a router, locates a Uniswap V3
    pool, asks for a quote, derives a slippage-protected minimum output and
    submits the swap through [ethers].

    - JavaScript [Number]s are IEEE-754 binary64 values: Rocq's primitive
      [float].
    - [BigInt]s are [Z]; BigInt division truncates toward zero ([Z.quot]).
    - Every awaited call into the chain is an event of an inductive program
      tree; a chain is a handler that answers the events over a world. *)

From Stdlib Require Import ZArith QArith Qround List String Ascii Bool Lia Floats.
Import ListNotations.

Local Open Scope string_scope.
Local Open Scope Z_scope.
#[local] Set Warnings "-inexact-float".

(** ** JavaScript numbers *)

Module Js.

(** [BigInt(Math.floor(x))].  [Math.floor] of NaN or of an infinity is that
    same value, which [BigInt] rejects with a RangeError: [None]. *)
Definition BigInt_floor (x : float) : option Z :=
  match Prim2SF x with
  | S754_zero _ => Some 0
  | S754_finite sg m e => Some (Z.shiftl (if sg then Z.neg m else Z.pos m) e)
  | S754_infinity _ | S754_nan => None
  end.

(** The real number a finite double stands for. *)
Definition real_value (x : float) : option Q :=
  match Prim2SF x with
  | S754_zero _ => Some 0%Q
  | S754_finite sg m e =>
      let v := if sg then Z.neg m else Z.pos m in
      Some (match e with
            | Zneg p => Qmake v (2 ^ p)
            | _ => inject_Z (v * 2 ^ e)
            end)
  | S754_infinity _ | S754_nan => None
  end.

(** The double an integer converts to (exactly, up to 2^53 in absolute
    value). *)
Definition of_Z (n : Z) : float := SF2Prim (binary_normalize prec emax n 0 false).

(** The double a numeric literal of rational value [s] stands for: the
    double nearest to [s], which the correctly rounded quotient is when the
    numerator and the denominator are below 2^53. *)
Definition literal (s : Q) : float := (of_Z (Qnum s) / of_Z (Zpos (Qden s)))%float.

End Js.

(** ** Slippage arithmetic *)

(** [src/index.js], line 20. *)
Definition SLIPPAGE_TOLERANCE : float := 0.05%float.

(** [src/index.js], line 623:
    [BigInt(Math.floor((1 - SLIPPAGE_TOLERANCE) * 1000))]. *)
Definition slippageFactor (tolerance : float) : option Z :=
  Js.BigInt_floor ((1 - tolerance) * 1000)%float.

(** [src/index.js], lines 624-631: the quote scaled by the per-mille factor,
    and a zero result replaced by one smallest unit. *)
Definition clampZero (amountOutMinimum : Z) : Z :=
  if amountOutMinimum =? 0 then 1 else amountOutMinimum.

Definition amountOutMinimum (tolerance : float) (quotedAmountOut : Z) : option Z :=
  match slippageFactor tolerance with
  | Some factor => Some (clampZero (Z.quot (quotedAmountOut * factor) 1000))
  | None => None
  end.

(** [src/index.js], lines 405-406 (exact-output fallback): the quoted input
    widened by the tolerance. *)
Definition adjustedAmountInMaximum (tolerance : float) (amountInMaximum : Z) : option Z :=
  match Js.BigInt_floor ((1 + tolerance) * 1000)%float with
  | Some factor => Some (Z.quot (amountInMaximum * factor) 1000)
  | None => None
  end.

Module Old.

(** [src/old_scripts/index2.js], first script, line 18. *)
Definition SLIPPAGE_TOLERANCE : float := 0.05%float.

(** Line 447: the per-mille factor is divided by [BigInt(1000)] before it is
    applied. *)
Definition slippageFactor (tolerance : float) : option Z :=
  match Js.BigInt_floor ((1 - tolerance) * 1000)%float with
  | Some perMille => Some (Z.quot perMille 1000)
  | None => None
  end.

(** Line 448. *)
Definition amountOutMinimum (tolerance : float) (quotedAmountOut : Z) : option Z :=
  match slippageFactor tolerance with
  | Some factor => Some (Z.quot (quotedAmountOut * factor) 1)
  | None => None
  end.

(** Second script, lines 704-705 ([prepareSwapParams]). *)
Definition slippageTolerance : float := 0.005%float.

Definition prepared_amountOutMinimum (amountOut : Z) : option Z :=
  match Js.BigInt_floor (1000 * (1 - slippageTolerance))%float with
  | Some factor => Some (Z.quot (amountOut * factor) 1000)
  | None => None
  end.

End Old.

(** The bound the specification asks for: the exact product, truncated. *)
Definition spec_minimumOut (s : Q) (quotedOut : Z) : Z :=
  Qfloor (inject_Z quotedOut * (1 - s)).

(** ** Data of the script *)

Definition addr := string.

(** [ethers.ZeroAddress]. *)
Definition ZeroAddress : addr := "0x0000000000000000000000000000000000000000".

(** [src/index.js], lines 24-36. *)
Definition TRY_EXACT_OUTPUT : bool := true.
Definition POOL_FACTORY_CONTRACT_ADDRESS : addr := "0x0227628f3F023bb0B980b67D528571c95c6DaC1c".
Definition QUOTER_CONTRACT_ADDRESS : addr := "0xEd1f6473345F45b75F8179591dd5bA1888cf2FB3".
Definition SWAP_ROUTER_CONTRACT_ADDRESS : addr := "0x3bFA4769FB09eefC5a80d6E87c3B9C650f7Ae48E".
Definition TOKEN_IN_ADDRESS : addr := "0xb0a61F0dB0a24393DaaF5DE9A4164A22f79c49d6".
Definition TOKEN_OUT_ADDRESS : addr := "0x94a9D9AC8a22534E3FaCa9F4e7F2E2cf85d5E4C8".
Definition CHAIN_ID : Z := 11155111.

(** The token descriptor built by [fetchTokenInfo] (lines 97-104). *)
Record TokenInfo : Type := {
  chainId : Z;
  address : addr;
  decimals : Z;
  symbol : string;
  name : string;
  isToken : bool
}.

(** The two fields of [slot0()] the script reads. *)
Record Slot0 : Type := { sqrtPriceX96 : Z; tick : Z }.

(** Argument of [quoteExactInputSingle] (lines 610-616, 548-554). *)
Module QuoteIn.
Record t : Type := {
  tokenIn : addr; tokenOut : addr; fee : Z; amountIn : Z; sqrtPriceLimitX96 : Z
}.
End QuoteIn.

(** Argument of [quoteExactOutputSingle] (lines 392-399). *)
Module QuoteOut.
Record t : Type := {
  tokenIn : addr; tokenOut : addr; fee : Z; recipient : addr; amountOut : Z;
  sqrtPriceLimitX96 : Z
}.
End QuoteOut.

(** Argument of [exactInputSingle] (lines 641-650). *)
Module SwapIn.
Record t : Type := {
  tokenIn : addr; tokenOut : addr; fee : Z; recipient : addr; deadline : Z;
  amountIn : Z; amountOutMinimum : Z; sqrtPriceLimitX96 : Z
}.
End SwapIn.

(** Argument of [exactOutputSingle] (lines 415-424). *)
Module SwapOut.
Record t : Type := {
  tokenIn : addr; tokenOut : addr; fee : Z; recipient : addr; deadline : Z;
  amountOut : Z; amountInMaximum : Z; sqrtPriceLimitX96 : Z
}.
End SwapOut.

(** A populated transaction handed to [sendTransaction]. *)
Variant calldata : Type :=
| Deposit (value : Z)
| Approve (spender : addr) (amount : Z)
| ExactInputSingle (params : SwapIn.t)
| ExactOutputSingle (params : SwapOut.t).

Record transaction : Type := { to : addr; data : calldata; gasLimit : Z }.

(** ** Awaited calls

    One constructor per call the script awaits, indexed by the type of the
    value the promise resolves to. *)
Variant call : Type -> Type :=
| Token_symbol (token : addr) : call string
| Token_name (token : addr) : call string
| Token_decimals (token : addr) : call Z
| Token_balanceOf (token owner : addr) : call Z
| Token_allowance (token owner spender : addr) : call Z
| Provider_getBalance (owner : addr) : call Z
| Factory_getPool (tokenA tokenB : addr) (fee : Z) : call addr
| Pool_token0 (pool : addr) : call addr
| Pool_token1 (pool : addr) : call addr
| Pool_fee (pool : addr) : call Z
| Pool_liquidity (pool : addr) : call Z
| Pool_slot0 (pool : addr) : call Slot0
| Quoter_quoteExactInputSingle (params : QuoteIn.t) : call Z
| Quoter_quoteExactOutputSingle (params : QuoteOut.t) : call Z
| Router_estimateGas (params : SwapIn.t) : call Z
| Signer_sendTransaction (tx : transaction) : call string
| Tx_wait (hash : string) : call string
| Date_now : call Z.

(** How a promise settles. *)
Variant reply (T : Type) : Type :=
| Resolved (v : T)
| Rejected (message : string).
Arguments Resolved {T} v.
Arguments Rejected {T} message.

(** The errors that travel through the script: rejections raised inside
    [ethers], the RangeError of [BigInt], and one constructor per
    [new Error(...)] of [src/index.js], carrying the data its message
    interpolates. *)
Inductive error : Type :=
| Rejection (message : string)
| RangeError
| TokenInfoFailed (tokenAddress : addr)                        (* line 111 *)
| BalancesFailed                                               (* line 143 *)
| InsufficientEth (balance : Z)                                (* line 164 *)
| EthWrappingFailed                                            (* line 190 *)
| CheckBalanceFailed (symbol : string)                         (* line 207 *)
| InsufficientBalance (symbol : string) (balance amount : Z)   (* line 222 *)
| TokenApprovalFailed                                          (* line 257 *)
| NoPoolExists (symbolIn symbolOut : string)                   (* line 305 *)
| QuoteFailed                                                  (* line 378 *)
| ExactOutputSwapFailed                                        (* line 453 *)
| SwapTransactionFailed                                        (* line 575 *)
| SwapFailedNoFallback.                                        (* line 734 *)

(** ** Programs

    A program is a finite tree: it returns, throws, awaits a call and goes on
    with the way it settled, or writes an error to the log.  Plain [log]
    lines are not recorded. *)
Inductive prog (A : Type) : Type :=
| Ret (a : A)
| Throw (e : error)
| Await {T : Type} (c : call T) (k : reply T -> prog A)
| LogError (message : string) (e : error) (k : prog A).
Arguments Ret {A} a.
Arguments Throw {A} e.
Arguments Await {A T} c k.
Arguments LogError {A} message e k.

Fixpoint bind {A B : Type} (p : prog A) (f : A -> prog B) : prog B :=
  match p with
  | Ret a => f a
  | Throw e => Throw e
  | Await c k => Await c (fun r => bind (k r) f)
  | LogError m e k => LogError m e (bind k f)
  end.

(** [try { p } catch (error) { handler error }]. *)
Fixpoint try_catch {A : Type} (p : prog A) (handler : error -> prog A) : prog A :=
  match p with
  | Ret a => Ret a
  | Throw e => handler e
  | Await c k => Await c (fun r => try_catch (k r) handler)
  | LogError m e k => LogError m e (try_catch k handler)
  end.

Declare Scope prog_scope.
Delimit Scope prog_scope with prog.
Notation "x <- p ;; q" := (bind p (fun x => q))
  (at level 61, p at next level, right associativity) : prog_scope.
Notation "' pat <- p ;; q" := (bind p (fun x => match x with pat => q end))
  (at level 61, pat pattern, p at next level, right associativity) : prog_scope.
Local Open Scope prog_scope.

(** [await c]: a rejection is thrown at the point of the [await]. *)
Definition await {T : Type} (c : call T) : prog T :=
  Await c (fun r => match r with
                    | Resolved v => Ret v
                    | Rejected m => Throw (Rejection m)
                    end).

(** [await Promise.all([a, b, c])]: the three calls are issued before any is
    awaited.  The model serialises them: they reach the chain in array order,
    and of several rejections the one reported is the first in array order
    ([Promise.all] reports the first in time). *)
Definition all3 {A B C : Type} (a : call A) (b : call B) (c : call C) : prog (A * B * C) :=
  Await a (fun ra => Await b (fun rb => Await c (fun rc =>
    match ra, rb, rc with
    | Resolved x, Resolved y, Resolved z => Ret (x, y, z)
    | Rejected m, _, _ => Throw (Rejection m)
    | _, Rejected m, _ => Throw (Rejection m)
    | _, _, Rejected m => Throw (Rejection m)
    end))).

Definition all5 {A B C D E : Type}
  (a : call A) (b : call B) (c : call C) (d : call D) (e : call E)
  : prog (A * B * C * D * E) :=
  Await a (fun ra => Await b (fun rb => Await c (fun rc =>
  Await d (fun rd => Await e (fun re =>
    match ra, rb, rc, rd, re with
    | Resolved x, Resolved y, Resolved z, Resolved u, Resolved v => Ret (x, y, z, u, v)
    | Rejected m, _, _, _, _ => Throw (Rejection m)
    | _, Rejected m, _, _, _ => Throw (Rejection m)
    | _, _, Rejected m, _, _ => Throw (Rejection m)
    | _, _, _, Rejected m, _ => Throw (Rejection m)
    | _, _, _, _, Rejected m => Throw (Rejection m)
    end))))).

(** ** Running a program against a chain *)

Inductive event : Type :=
| Called {T : Type} (c : call T) (r : reply T)
| Logged (message : string) (e : error).

(** A chain answers every call from its current world and moves on. *)
Definition chain (W : Type) : Type := forall T : Type, call T -> W -> reply T * W.

Fixpoint run {W A : Type} (h : chain W) (p : prog A) (w : W)
  : (A + error) * W * list event :=
  match p with
  | Ret a => (inl a, w, [])
  | Throw e => (inr e, w, [])
  | Await c k =>
      let '(r, w1) := h _ c w in
      let '(o, w2, t) := run h (k r) w1 in
      (o, w2, Called c r :: t)
  | LogError m e k =>
      let '(o, w1, t) := run h k w in
      (o, w1, Logged m e :: t)
  end.

(** ** The script, function by function *)

(** [String.prototype.toLowerCase] on the ASCII letters of an address. *)
Definition lower_ascii (c : ascii) : ascii :=
  let n := nat_of_ascii c in
  if andb (Nat.leb 65 n) (Nat.leb n 90) then ascii_of_nat (n + 32) else c.

Fixpoint toLowerCase (s : string) : string :=
  match s with
  | EmptyString => EmptyString
  | String c rest => String (lower_ascii c) (toLowerCase rest)
  end.

(** [haystack.includes(needle)]. *)
Definition includes (haystack needle : string) : bool :=
  match String.index 0 needle haystack with
  | Some _ => true
  | None => false
  end.

(** [error.message && error.message.includes('Transaction reverted without a
    reason')] (line 530).  The handler that evaluates it only ever receives
    rejections of awaited [ethers] calls; the messages of the script's own
    errors are not rendered. *)
Definition revertedWithoutReason (e : error) : bool :=
  match e with
  | Rejection m => includes m "Transaction reverted without a reason"
  | _ => false
  end.

(** What [logBalances] returns (line 140). *)
Record Balances : Type := {
  tokenInBalance : Z;
  tokenOutBalance : Z;
  ethBalance : Z
}.

(** What [approveToken] returns (lines 231, 254). *)
Variant approval : Type :=
| AlreadyApproved
| Approved (txHash : string).

(** What [getPoolInfo] returns (line 346); [poolContract] is the address the
    contract object is bound to. *)
Module PoolInfo.
Record t : Type := {
  poolContract : addr;
  token0 : addr;
  token1 : addr;
  fee : Z;
  liquidity : Z;
  slot0 : Slot0;
  tokenInIsToken0 : bool
}.
End PoolInfo.

(** What [main] returns (lines 682-687, 726-732), the amounts left as
    integers in smallest units rather than formatted. *)
Record SwapResult : Type := {
  success : bool;
  txHash : string;
  swappedIn : Z;
  swappedOut : Z;
  method : option string
}.

(** Lines 84-113. *)
Definition fetchTokenInfo (tokenAddress : addr) : prog TokenInfo :=
  try_catch
    ('(sym, nm, dec) <-
       all3 (Token_symbol tokenAddress) (Token_name tokenAddress)
            (Token_decimals tokenAddress) ;;
     Ret {| chainId := CHAIN_ID; address := tokenAddress; decimals := dec;
            symbol := sym; name := nm; isToken := true |})
    (fun error =>
       LogError ("Error fetching token info for " ++ tokenAddress) error
         (Throw (TokenInfoFailed tokenAddress))).

(** Lines 120-145. *)
Definition logBalances (wallet : addr) (tokenIn tokenOut : TokenInfo) : prog Balances :=
  try_catch
    ('(balIn, balOut, eth) <-
       all3 (Token_balanceOf (address tokenIn) wallet)
            (Token_balanceOf (address tokenOut) wallet)
            (Provider_getBalance wallet) ;;
     Ret {| tokenInBalance := balIn; tokenOutBalance := balOut; ethBalance := eth |})
    (fun error => LogError "Error fetching balances" error (Throw BalancesFailed)).

(** A thrown library error, or the value: [throw] at the point of use. *)
Definition settle {T : Type} (r : reply T) : prog T :=
  match r with
  | Resolved v => Ret v
  | Rejected m => Throw (Rejection m)
  end.

(** Lines 152-192.  [parseUnits x decimals] stands for
    [ethers.parseUnits(x.toString(), decimals)], which throws on a string it
    cannot read; [ethers.parseEther] is [parseUnits] at 18 decimals. *)
Definition wrapEthToWeth (parseUnits : float -> Z -> reply Z)
  (wallet : addr) (ethAmount : float) (wethAddress : addr) : prog string :=
  try_catch
    (ethToWrap <- settle (parseUnits ethAmount 18) ;;
     eth <- await (Provider_getBalance wallet) ;;
     if eth <? ethToWrap then Throw (InsufficientEth eth)
     else
       hash <- await (Signer_sendTransaction
                        {| to := wethAddress; data := Deposit ethToWrap;
                           gasLimit := 200000 |}) ;;
       receipt <- await (Tx_wait hash) ;;
       _ <- await (Token_balanceOf wethAddress wallet) ;;
       Ret receipt)
    (fun error => LogError "Error wrapping ETH to WETH" error (Throw EthWrappingFailed)).

(** Lines 199-209. *)
Definition checkBalance (tokenInfo : TokenInfo) (wallet : addr) : prog Z :=
  try_catch
    (await (Token_balanceOf (address tokenInfo) wallet))
    (fun error =>
       LogError ("Error checking " ++ symbol tokenInfo ++ " balance") error
         (Throw (CheckBalanceFailed (symbol tokenInfo)))).

(** Lines 212-259. *)
Definition approveToken (tokenInfo : TokenInfo) (amount : Z) (wallet : addr)
  : prog approval :=
  try_catch
    (balance <- checkBalance tokenInfo wallet ;;
     if balance <? amount then
       Throw (InsufficientBalance (symbol tokenInfo) balance amount)
     else
       allowance <- await (Token_allowance (address tokenInfo) wallet
                             SWAP_ROUTER_CONTRACT_ADDRESS) ;;
       if allowance >=? amount then Ret AlreadyApproved
       else
         hash <- await (Signer_sendTransaction
                          {| to := address tokenInfo;
                             data := Approve SWAP_ROUTER_CONTRACT_ADDRESS amount;
                             gasLimit := 100000 |}) ;;
         receipt <- await (Tx_wait hash) ;;
         _ <- await (Token_allowance (address tokenInfo) wallet
                       SWAP_ROUTER_CONTRACT_ADDRESS) ;;
         Ret (Approved receipt))
    (fun error => LogError "Error during token approval" error (Throw TokenApprovalFailed)).

(** Line 271. *)
Definition feeTiers : list Z := [500; 3000; 10000].

(** One [for (const fee of feeTiers)] loop of [getPoolInfo] (lines 276-286 and
    292-301): the first lookup that is not the zero address ends it. *)
Fixpoint findPool (tokenA tokenB : addr) (tiers : list Z) : prog (option (addr * Z)) :=
  match tiers with
  | [] => Ret None
  | fee :: rest =>
      pool <- await (Factory_getPool tokenA tokenB fee) ;;
      if negb (pool =? ZeroAddress)%string then Ret (Some (pool, fee))
      else findPool tokenA tokenB rest
  end.

(** Lines 308-346 of [getPoolInfo]: the five reads of the pool that was
    found, joined, and the record built from them. *)
Definition poolDetails (tokenIn : TokenInfo) (poolAddress : addr) : prog PoolInfo.t :=
  '(t0, t1, fee, liq, s0) <-
    all5 (Pool_token0 poolAddress) (Pool_token1 poolAddress)
         (Pool_fee poolAddress) (Pool_liquidity poolAddress)
         (Pool_slot0 poolAddress) ;;
  Ret {| PoolInfo.poolContract := poolAddress;
         PoolInfo.token0 := t0;
         PoolInfo.token1 := t1;
         PoolInfo.fee := fee;
         PoolInfo.liquidity := liq;
         PoolInfo.slot0 := s0;
         PoolInfo.tokenInIsToken0 :=
           (toLowerCase t0 =? toLowerCase (address tokenIn))%string |}.

(** Lines 266-351. *)
Definition getPoolInfo (tokenIn tokenOut : TokenInfo) : prog PoolInfo.t :=
  try_catch
    (forward <- findPool (address tokenIn) (address tokenOut) feeTiers ;;
     found <- match forward with
              | Some hit => Ret (Some hit)
              | None => findPool (address tokenOut) (address tokenIn) feeTiers
              end ;;
     match found with
     | None => Throw (NoPoolExists (symbol tokenIn) (symbol tokenOut))
     | Some (poolAddress, usedFee) =>
         if (poolAddress =? ZeroAddress)%string then
           Throw (NoPoolExists (symbol tokenIn) (symbol tokenOut))
         else poolDetails tokenIn poolAddress
     end)
    (fun error => LogError "Error retrieving pool information" error (Throw error)).

(** Lines 358-380. *)
Definition getQuote (params : QuoteIn.t) (tokenOut : TokenInfo) : prog Z :=
  try_catch
    (await (Quoter_quoteExactInputSingle params))
    (fun error => LogError "Error getting quote" error (Throw QuoteFailed)).

(** [throw] the RangeError of a failed [BigInt(...)]. *)
Definition bigint {A : Type} (v : option A) : prog A :=
  match v with
  | Some x => Ret x
  | None => Throw RangeError
  end.

(** [Math.floor(Date.now() / 1000 + 60 * 10)] (lines 420, 646). *)
Definition deadlineFrom (nowMs : Z) : Z := nowMs / 1000 + 60 * 10.

Section Script.

(** The parts of [ethers] and of the environment the script is run with:
    [parseUnits x decimals] is [ethers.parseUnits(x.toString(), decimals)],
    [formatUnitsNumber v decimals] is [Number(ethers.formatUnits(v, decimals))],
    [signer] is the address of the wallet built from the private key. *)
Variable parseUnits : float -> Z -> reply Z.
Variable formatUnitsNumber : Z -> Z -> float.
Variable signer : addr.

(** The two configuration constants the claims range over. *)
Variable tolerance : float.
Variable tryExactOutput : bool.

(** Lines 383-455. *)
Definition tryExactOutputSwap (poolFee : Z) (desiredOutputAmount : float)
  (tokenIn tokenOut : TokenInfo) : prog string :=
  try_catch
    (amountOut <- settle (parseUnits desiredOutputAmount (decimals tokenOut)) ;;
     let quoteParams :=
       {| QuoteOut.tokenIn := address tokenIn;
          QuoteOut.tokenOut := address tokenOut;
          QuoteOut.fee := poolFee;
          QuoteOut.recipient := signer;
          QuoteOut.amountOut := amountOut;
          QuoteOut.sqrtPriceLimitX96 := 0 |} in
     amountInMaximum <- await (Quoter_quoteExactOutputSingle quoteParams) ;;
     adjusted <- bigint (adjustedAmountInMaximum tolerance amountInMaximum) ;;
     now <- await Date_now ;;
     let swapParams :=
       {| SwapOut.tokenIn := address tokenIn;
          SwapOut.tokenOut := address tokenOut;
          SwapOut.fee := poolFee;
          SwapOut.recipient := signer;
          SwapOut.deadline := deadlineFrom now;
          SwapOut.amountOut := amountOut;
          SwapOut.amountInMaximum := adjusted;
          SwapOut.sqrtPriceLimitX96 := 0 |} in
     _ <- approveToken tokenIn adjusted signer ;;
     hash <- await (Signer_sendTransaction
                      {| to := SWAP_ROUTER_CONTRACT_ADDRESS;
                         data := ExactOutputSingle swapParams;
                         gasLimit := 1000000 |}) ;;
     await (Tx_wait hash))
    (fun error => LogError "ExactOutputSingle swap failed" error
                    (Throw ExactOutputSwapFailed)).

(** The diagnostics of [executeSwap] (lines 534-564): every failure inside is
    logged and swallowed. *)
Definition diagnose (params : SwapIn.t) : prog unit :=
  try_catch
    (poolAddress <- await (Factory_getPool (SwapIn.tokenIn params)
                             (SwapIn.tokenOut params) (SwapIn.fee params)) ;;
     _ <- await (Pool_liquidity poolAddress) ;;
     let smallerAmount := Z.quot (SwapIn.amountIn params * 10) 100 in
     try_catch
       (_ <- await (Quoter_quoteExactInputSingle
                      {| QuoteIn.tokenIn := SwapIn.tokenIn params;
                         QuoteIn.tokenOut := SwapIn.tokenOut params;
                         QuoteIn.fee := SwapIn.fee params;
                         QuoteIn.amountIn := smallerAmount;
                         QuoteIn.sqrtPriceLimitX96 := 0 |}) ;;
        Ret tt)
       (fun smallerQuoteError =>
          LogError "Even smaller quote failed" smallerQuoteError (Ret tt)))
    (fun diagnosticError =>
       LogError "Diagnostic checks failed" diagnosticError (Ret tt)).

(** One submission of the swap with a given gas limit (lines 477-495 and
    501-519). *)
Definition submitSwap (params : SwapIn.t) (gas : Z) : prog string :=
  hash <- await (Signer_sendTransaction
                   {| to := SWAP_ROUTER_CONTRACT_ADDRESS;
                      data := ExactInputSingle params;
                      gasLimit := gas |}) ;;
  await (Tx_wait hash).

(** Lines 462-577. *)
Definition executeSwap (params : SwapIn.t) (tokenIn tokenOut : TokenInfo) : prog string :=
  try_catch
    (try_catch
       (gasEstimate <- await (Router_estimateGas params) ;;
        submitSwap params (Z.quot (gasEstimate * 130) 100))
       (fun gasError =>
          LogError "Gas estimation failed, using fixed gas limit" gasError
            (submitSwap params 1000000)))
    (fun error =>
       LogError "Swap execution failed" error
         (_ <- (if revertedWithoutReason error then diagnose params else Ret tt) ;;
          Throw SwapTransactionFailed)).

(** Lines 583-741. *)
Definition main (swapAmount : float) : prog SwapResult :=
  try_catch
    (tokenIn <- fetchTokenInfo TOKEN_IN_ADDRESS ;;
     tokenOut <- fetchTokenInfo TOKEN_OUT_ADDRESS ;;
     initialBalances <- logBalances signer tokenIn tokenOut ;;
     amountIn <- settle (parseUnits swapAmount (decimals tokenIn)) ;;
     _ <- approveToken tokenIn amountIn signer ;;
     pool <- getPoolInfo tokenIn tokenOut ;;
     let fee := PoolInfo.fee pool in
     let quoteParams :=
       {| QuoteIn.tokenIn := address tokenIn;
          QuoteIn.tokenOut := address tokenOut;
          QuoteIn.fee := fee;
          QuoteIn.amountIn := amountIn;
          QuoteIn.sqrtPriceLimitX96 := 0 |} in
     quotedAmountOut <- getQuote quoteParams tokenOut ;;
     minimum <- bigint (amountOutMinimum tolerance quotedAmountOut) ;;
     now <- await Date_now ;;
     let swapParams :=
       {| SwapIn.tokenIn := address tokenIn;
          SwapIn.tokenOut := address tokenOut;
          SwapIn.fee := fee;
          SwapIn.recipient := signer;
          SwapIn.deadline := deadlineFrom now;
          SwapIn.amountIn := amountIn;
          SwapIn.amountOutMinimum := minimum;
          SwapIn.sqrtPriceLimitX96 := 0 |} in
     try_catch
       (receipt <- executeSwap swapParams tokenIn tokenOut ;;
        finalBalances <- logBalances signer tokenIn tokenOut ;;
        Ret {| success := true;
               txHash := receipt;
               swappedIn := amountIn;
               swappedOut := tokenOutBalance finalBalances
                             - tokenOutBalance initialBalances;
               method := None |})
       (fun swapError =>
          LogError "ExactInputSingle swap failed, trying alternative approach" swapError
            (if tryExactOutput then
               let desiredOutputAmount :=
                 (formatUnitsNumber quotedAmountOut (decimals tokenOut) * 0.9)%float in
               receipt <- tryExactOutputSwap fee desiredOutputAmount tokenIn tokenOut ;;
               finalBalances <- logBalances signer tokenIn tokenOut ;;
               Ret {| success := true;
                      txHash := receipt;
                      swappedIn := tokenInBalance initialBalances
                                   - tokenInBalance finalBalances;
                      swappedOut := tokenOutBalance finalBalances
                                    - tokenOutBalance initialBalances;
                      method := Some "exactOutputSingle" |}
             else Throw SwapFailedNoFallback)))
    (fun error =>
       LogError "An error occurred during swap execution" error (Throw error)).

End Script.

(** ** What a trace shows *)

(** The factory lookups of a trace, in order, each with the way it settled. *)
Definition lookupOf (e : event) : list (addr * addr * Z * reply addr) :=
  match e with
  | Called c r =>
      match c in call T return reply T -> list (addr * addr * Z * reply addr) with
      | Factory_getPool a b f => fun r => [(a, b, f, r)]
      | _ => fun _ => []
      end r
  | Logged _ _ => []
  end.

Definition lookups (t : list event) : list (addr * addr * Z * reply addr) :=
  flat_map lookupOf t.

Definition returnedZero (l : addr * addr * Z * reply addr) : bool :=
  match snd l with
  | Resolved pool => (pool =? ZeroAddress)%string
  | Rejected _ => false
  end.

(** The six lookups of the pool locator, in the order it makes them. *)
Definition sixLookups (tokenIn tokenOut : addr) : list (addr * addr * Z) :=
  map (fun fee => (tokenIn, tokenOut, fee)) feeTiers
  ++ map (fun fee => (tokenOut, tokenIn, fee)) feeTiers.

(** Transactions handed to the signer. *)
Definition sentOf (e : event) : list transaction :=
  match e with
  | Called c _ =>
      match c with
      | Signer_sendTransaction tx => [tx]
      | _ => []
      end
  | Logged _ _ => []
  end.

Definition sent (t : list event) : list transaction := flat_map sentOf t.

Definition isApproval (tx : transaction) : bool :=
  match data tx with
  | Approve _ _ => true
  | _ => false
  end.

(** Number of approval transactions submitted in a trace. *)
Definition approvals (t : list event) : nat := List.length (filter isApproval (sent t)).

(** Allowance reads of a trace. *)
Definition isAllowanceRead (e : event) : bool :=
  match e with
  | Called c _ =>
      match c with
      | Token_allowance _ _ _ => true
      | _ => false
      end
  | Logged _ _ => false
  end.

(** A property of the calls of a trace. *)
Definition calledWith (P : forall T : Type, call T -> Prop) (e : event) : Prop :=
  match e with
  | Called c _ => P _ c
  | Logged _ _ => True
  end.

(** Every call a program can ever make satisfies [P], and every value it
    returns satisfies [Q], as long as the replies it gets satisfy [R]. *)
Fixpoint sat {A : Type} (R : forall T : Type, call T -> reply T -> Prop)
  (P : forall T : Type, call T -> Prop) (Q : A -> Prop) (p : prog A) : Prop :=
  match p with
  | Ret a => Q a
  | Throw _ => True
  | Await c k => P _ c /\ forall r, R _ c r -> sat R P Q (k r)
  | LogError _ _ k => sat R P Q k
  end.

(** A chain whose replies satisfy [R]. *)
Definition answers {W : Type} (R : forall T : Type, call T -> reply T -> Prop)
  (h : chain W) : Prop :=
  forall (T : Type) (c : call T) (w : W), R T c (fst (h T c w)).

Definition anyReply : forall T : Type, call T -> reply T -> Prop := fun _ _ _ => True.

(** No price limit: [sqrtPriceLimitX96] is zero in every quote request and
    every swap submission. *)
Definition noPriceLimit : forall T : Type, call T -> Prop :=
  fun _ c =>
    match c with
    | Quoter_quoteExactInputSingle p => QuoteIn.sqrtPriceLimitX96 p = 0
    | Quoter_quoteExactOutputSingle p => QuoteOut.sqrtPriceLimitX96 p = 0
    | Router_estimateGas p => SwapIn.sqrtPriceLimitX96 p = 0
    | Signer_sendTransaction tx =>
        match data tx with
        | ExactInputSingle p => SwapIn.sqrtPriceLimitX96 p = 0
        | ExactOutputSingle p => SwapOut.sqrtPriceLimitX96 p = 0
        | _ => True
        end
    | _ => True
    end.

(** The minimum output of every exact-input swap handed to the router is at
    least one smallest unit. *)
Definition minimumAtLeastOne : forall T : Type, call T -> Prop :=
  fun _ c =>
    match c with
    | Router_estimateGas p => 1 <= SwapIn.amountOutMinimum p
    | Signer_sendTransaction tx =>
        match data tx with
        | ExactInputSingle p => 1 <= SwapIn.amountOutMinimum p
        | _ => True
        end
    | _ => True
    end.

(** Quotes decode a [uint256]: they are never negative. *)
Definition unsignedQuotes : forall T : Type, call T -> reply T -> Prop :=
  fun _ c =>
    match c in call T return reply T -> Prop with
    | Quoter_quoteExactInputSingle _ => fun r =>
        match r with
        | Resolved v => 0 <= v
        | Rejected _ => True
        end
    | _ => fun _ => True
    end.

(** ERC-20 behaviour of a chain towards one wallet: reads leave the world
    alone, and a confirmed [approve(spender, amount)] sets the allowance to
    [amount] and keeps the balance. *)
Record erc20 {W : Type} (h : chain W) (wallet : addr) : Prop := {
  balanceOf_pure : forall token owner w,
    snd (h _ (Token_balanceOf token owner) w) = w;
  allowance_pure : forall token owner spender w,
    snd (h _ (Token_allowance token owner spender) w) = w;
  approve_confirmed : forall token spender amount gas w hash w1 receipt w2,
    h _ (Signer_sendTransaction
           {| to := token; data := Approve spender amount; gasLimit := gas |}) w
    = (Resolved hash, w1) ->
    h _ (Tx_wait hash) w1 = (Resolved receipt, w2) ->
    fst (h _ (Token_allowance token wallet spender) w2) = Resolved amount
    /\ fst (h _ (Token_balanceOf token wallet) w2)
       = fst (h _ (Token_balanceOf token wallet) w)
}.

(** A chain whose factory is a fixed table that lookups do not disturb. *)
Definition fixedFactory {W : Type} (h : chain W) (factory : addr -> addr -> Z -> addr)
  : Prop :=
  forall a b fee w, h _ (Factory_getPool a b fee) w = (Resolved (factory a b fee), w).

(** What the pool locator resolves a pair to: pool address and fee. *)
Definition resolvedPool (o : PoolInfo.t + error) : option (addr * Z) :=
  match o with
  | inl info => Some (PoolInfo.poolContract info, PoolInfo.fee info)
  | inr _ => None
  end.

(** ** A reference chain

    A well-behaved chain to run the script on: one wallet, ERC-20 balances and
    one allowance, a fixed factory table, a quoter at a constant price of
    150.25 output tokens (6 decimals) for 0.1 input token (18 decimals), and
    transactions that always confirm. *)
Record World : Type := {
  tokenInHeld : Z;
  tokenOutHeld : Z;
  etherHeld : Z;
  allowed : Z
}.

Definition quoteOut (amountIn : Z) : Z := amountIn * 15025 / 10 ^ 13.
Definition quoteIn (amountOut : Z) : Z := amountOut * 10 ^ 13 / 15025 + 1.

Definition isTokenIn (token : addr) : bool := (token =? TOKEN_IN_ADDRESS)%string.


(** Effect of a confirmed transaction. *)
Definition apply (tx : transaction) (w : World) : World :=
  match data tx with
  | Deposit v =>
      {| tokenInHeld := tokenInHeld w + v; tokenOutHeld := tokenOutHeld w;
         etherHeld := etherHeld w - v; allowed := allowed w |}
  | Approve _ amount =>
      {| tokenInHeld := tokenInHeld w; tokenOutHeld := tokenOutHeld w;
         etherHeld := etherHeld w; allowed := amount |}
  | ExactInputSingle p =>
      {| tokenInHeld := tokenInHeld w - SwapIn.amountIn p;
         tokenOutHeld := tokenOutHeld w + quoteOut (SwapIn.amountIn p);
         etherHeld := etherHeld w;
         allowed := allowed w - SwapIn.amountIn p |}
  | ExactOutputSingle p =>
      {| tokenInHeld := tokenInHeld w - quoteIn (SwapOut.amountOut p);
         tokenOutHeld := tokenOutHeld w + SwapOut.amountOut p;
         etherHeld := etherHeld w;
         allowed := allowed w - quoteIn (SwapOut.amountOut p) |}
  end.

Definition ledgerOn (input : addr) (pools : addr -> addr -> Z -> addr) : chain World :=
  fun T c =>
    match c in call T return World -> reply T * World with
    | Token_symbol t => fun w => (Resolved (if (t =? input)%string then "WETH" else "USDC"), w)
    | Token_name t => fun w =>
        (Resolved (if (t =? input)%string then "Wrapped Ether" else "USD Coin"), w)
    | Token_decimals t => fun w => (Resolved (if (t =? input)%string then 18 else 6), w)
    | Token_balanceOf t _ => fun w =>
        (Resolved (if (t =? input)%string then tokenInHeld w else tokenOutHeld w), w)
    | Token_allowance _ _ _ => fun w => (Resolved (allowed w), w)
    | Provider_getBalance _ => fun w => (Resolved (etherHeld w), w)
    | Factory_getPool a b fee => fun w => (Resolved (pools a b fee), w)
    | Pool_token0 _ => fun w => (Resolved TOKEN_OUT_ADDRESS, w)
    | Pool_token1 _ => fun w => (Resolved TOKEN_IN_ADDRESS, w)
    | Pool_fee pool => fun w =>
        (Resolved (if (pool =? "0x0000000000000000000000000000000000000500")%string
                   then 500 else 3000), w)
    | Pool_liquidity _ => fun w => (Resolved 1000000000, w)
    | Pool_slot0 _ => fun w => (Resolved {| sqrtPriceX96 := 2 ^ 96; tick := 0 |}, w)
    | Quoter_quoteExactInputSingle p => fun w =>
        (if QuoteIn.amountIn p <? 0 then Rejected "value out-of-bounds"
         else Resolved (quoteOut (QuoteIn.amountIn p)), w)
    | Quoter_quoteExactOutputSingle p => fun w =>
        (if QuoteOut.amountOut p <? 0 then Rejected "value out-of-bounds"
         else Resolved (quoteIn (QuoteOut.amountOut p)), w)
    | Router_estimateGas _ => fun w => (Resolved 150000, w)
    | Signer_sendTransaction tx => fun w => (Resolved "0x7a", apply tx w)
    | Tx_wait hash => fun w => (Resolved hash, w)
    | Date_now => fun w => (Resolved 1700000000000, w)
    end.

(** The reference chain for the tokens of [src/index.js]. *)
Definition ledger (pools : addr -> addr -> Z -> addr) : chain World :=
  ledgerOn TOKEN_IN_ADDRESS pools.

(** The wallet the reference runs use. *)
Definition wallet0 : addr := "0x00000000000000000000000000000000000000aa".

Definition pool500 : addr := "0x0000000000000000000000000000000000000500".
Definition pool3000 : addr := "0x0000000000000000000000000000000000003000".

(** Factory tables: none, a symmetric one, and one that knows the pair in one
    order at tier 3000 and in the other order at tier 500. *)
Definition noPools : addr -> addr -> Z -> addr := fun _ _ _ => ZeroAddress.

Definition onePool : addr -> addr -> Z -> addr :=
  fun _ _ fee => if fee =? 3000 then pool3000 else ZeroAddress.

Definition lopsided : addr -> addr -> Z -> addr :=
  fun a _ fee =>
    if isTokenIn a then (if fee =? 3000 then pool3000 else ZeroAddress)
    else (if fee =? 500 then pool500 else ZeroAddress).

Definition world0 (held allowance : Z) : World :=
  {| tokenInHeld := held; tokenOutHeld := 0; etherHeld := 10 ^ 18;
     allowed := allowance |}.

(** A stand-in for [parseUnits], for the reference runs only, defined on
    whole numbers below 10^21: [n] tokens are [n * 10^decimals] units.  Every
    other amount is rejected here: fractions, which [ethers] reads, as well as
    negative amounts and amounts from 10^21 on, which JavaScript prints in
    exponent notation. *)
Definition parseWhole (x : float) (decimals : Z) : reply Z :=
  match Prim2SF x with
  | S754_zero _ => Resolved 0
  | S754_finite false m e =>
      let whole :=
        match e with
        | Zneg p => if Z.pos m mod 2 ^ Z.pos p =? 0 then Some (Z.pos m / 2 ^ Z.pos p)
                    else None
        | _ => Some (Z.pos m * 2 ^ e)
        end in
      match whole with
      | Some n => if n <? 10 ^ 21 then Resolved (n * 10 ^ decimals)
                  else Rejected "unsupported"
      | None => Rejected "unsupported"
      end
  | _ => Rejected "unsupported"
  end.

(** A stand-in for [Number(formatUnits(v, decimals))], for the reference runs
    only: the correctly rounded quotient, which is that number for [v] below
    2^53 and at most 22 decimals. *)
Definition formatRounded (v decimals : Z) : float :=
  (Js.of_Z v / Js.of_Z (10 ^ decimals))%float.

Definition tokenWETH : TokenInfo :=
  {| chainId := CHAIN_ID; address := TOKEN_IN_ADDRESS; decimals := 18;
     symbol := "WETH"; name := "Wrapped Ether"; isToken := true |}.

Definition tokenUSDC : TokenInfo :=
  {| chainId := CHAIN_ID; address := TOKEN_OUT_ADDRESS; decimals := 6;
     symbol := "USDC"; name := "USD Coin"; isToken := true |}.

(** The script as configured in [src/index.js], on the reference chain. *)
Definition script (swapAmount : float) : prog SwapResult :=
  main parseWhole formatRounded wallet0 SLIPPAGE_TOLERANCE TRY_EXACT_OUTPUT swapAmount.

(** ** Counting transactions *)

Definition selects (sel : transaction -> bool) (T : Type) (c : call T) : bool :=
  match c with
  | Signer_sendTransaction tx => sel tx
  | _ => false
  end.

(** [within sel n p]: along every path, whatever the replies, [p] hands at
    most [n] transactions selected by [sel] to the signer. *)
Fixpoint within {A : Type} (sel : transaction -> bool) (n : nat) (p : prog A) : Prop :=
  match p with
  | Ret _ | Throw _ => True
  | Await c k =>
      if selects sel _ c then
        match n with
        | O => False
        | S m => forall r, within sel m (k r)
        end
      else forall r, within sel n (k r)
  | LogError _ _ k => within sel n k
  end.

Definition anyTransaction (tx : transaction) : bool := true.

Definition isExactInput (tx : transaction) : bool :=
  match data tx with
  | ExactInputSingle _ => true
  | _ => false
  end.

Definition isExactOutput (tx : transaction) : bool :=
  match data tx with
  | ExactOutputSingle _ => true
  | _ => false
  end.

Definition isDeposit (tx : transaction) : bool :=
  match data tx with
  | Deposit _ => true
  | _ => false
  end.

(** The last event of a trace, if any. *)
Definition lastEvent (t : list event) : option event :=
  match rev t with
  | [] => None
  | e :: _ => Some e
  end.

(** ** The first script of [src/old_scripts/index2.js]

    Its [logBalances], [wrapEthToWeth], [approveToken], [getPoolInfo] and
    [getQuote] are the functions of [src/index.js] with the two tokens fixed to
    the constants below; [executeSwap] and [main] differ. *)
Module OldScript.

(** Lines 36-56. *)
Definition WETH : TokenInfo :=
  {| chainId := 11155111; address := "0xfff9976782d46cc05630d1f6ebab18b2324d6b14";
     decimals := 18; symbol := "WETH"; name := "Wrapped Ether"; isToken := true |}.

Definition USDC : TokenInfo :=
  {| chainId := 11155111; address := "0x1c7D4B196Cb0C7B01d743Fbc6116a902379C7238";
     decimals := 6; symbol := "USDC"; name := "USD//C"; isToken := true |}.

(** Lines 364-398: one submission with a fixed gas limit. *)
Definition executeSwap (params : SwapIn.t) : prog string :=
  try_catch
    (hash <- await (Signer_sendTransaction
                      {| to := SWAP_ROUTER_CONTRACT_ADDRESS;
                         data := ExactInputSingle params;
                         gasLimit := 500000 |}) ;;
     await (Tx_wait hash))
    (fun error => LogError "Swap execution failed" error (Throw SwapTransactionFailed)).

(** Lines 404-501. *)
Definition main (parseUnits : float -> Z -> reply Z) (signer : addr)
  (tolerance : float) (swapAmount : float) : prog SwapResult :=
  try_catch
    (initialBalances <- logBalances signer WETH USDC ;;
     _ <- wrapEthToWeth parseUnits signer swapAmount (address WETH) ;;
     amountIn <- settle (parseUnits swapAmount (decimals WETH)) ;;
     _ <- approveToken WETH amountIn signer ;;
     pool <- getPoolInfo WETH USDC ;;
     let fee := PoolInfo.fee pool in
     let quoteParams :=
       {| QuoteIn.tokenIn := address WETH;
          QuoteIn.tokenOut := address USDC;
          QuoteIn.fee := fee;
          QuoteIn.amountIn := amountIn;
          QuoteIn.sqrtPriceLimitX96 := 0 |} in
     quotedAmountOut <- getQuote quoteParams USDC ;;
     minimum <- bigint (Old.amountOutMinimum tolerance quotedAmountOut) ;;
     now <- await Date_now ;;
     let swapParams :=
       {| SwapIn.tokenIn := address WETH;
          SwapIn.tokenOut := address USDC;
          SwapIn.fee := fee;
          SwapIn.recipient := signer;
          SwapIn.deadline := deadlineFrom now;
          SwapIn.amountIn := amountIn;
          SwapIn.amountOutMinimum := minimum;
          SwapIn.sqrtPriceLimitX96 := 0 |} in
     receipt <- executeSwap swapParams ;;
     finalBalances <- logBalances signer WETH USDC ;;
     Ret {| success := true;
            txHash := receipt;
            swappedIn := amountIn;
            swappedOut := tokenOutBalance finalBalances
                          - tokenOutBalance initialBalances;
            method := None |})
    (fun error =>
       LogError "An error occurred during swap execution" error (Throw error)).

End OldScript.

(** Second script of [src/old_scripts/index2.js], lines 703-717
    ([prepareSwapParams]), whose token constants are those of the first script:
    the fee is read from the pool while the object literal is built, before
    the clock. *)
Definition prepareSwapParams (poolContract signer : addr) (amountIn amountOut : Z)
  : prog SwapIn.t :=
  minimum <- bigint (Old.prepared_amountOutMinimum amountOut) ;;
  fee <- await (Pool_fee poolContract) ;;
  now <- await Date_now ;;
  Ret {| SwapIn.tokenIn := address OldScript.WETH;
         SwapIn.tokenOut := address OldScript.USDC;
         SwapIn.fee := fee;
         SwapIn.recipient := signer;
         SwapIn.deadline := deadlineFrom now;
         SwapIn.amountIn := amountIn;
         SwapIn.amountOutMinimum := minimum;
         SwapIn.sqrtPriceLimitX96 := 0 |}.

(** No protection: the minimum output of every exact-input swap handed to
    the router is zero. *)
Definition minimumIsZero : forall T : Type, call T -> Prop :=
  fun _ c =>
    match c with
    | Signer_sendTransaction tx =>
        match data tx with
        | ExactInputSingle p => SwapIn.amountOutMinimum p = 0
        | _ => True
        end
    | _ => True
    end.

(** The first pool of a fixed table in the locator's order, with the tier it
    was found at. *)
Definition firstPool (factory : addr -> addr -> Z -> addr) (tokenIn tokenOut : addr)
  : option (addr * Z) :=
  match find (fun q => negb (factory (fst (fst q)) (snd (fst q)) (snd q) =? ZeroAddress)%string)
             (sixLookups tokenIn tokenOut) with
  | Some (a, b, fee) => Some (factory a b fee, fee)
  | None => None
  end.

(** ** A chain whose first confirmation fails

    The world counts the confirmations awaited so far; the first one is
    rejected, every other call resolves. *)
Definition flaky : chain nat :=
  fun T c =>
    match c in call T return nat -> reply T * nat with
    | Token_symbol _ | Token_name _ => fun w => (Resolved "", w)
    | Token_decimals _ | Token_balanceOf _ _ | Token_allowance _ _ _
    | Provider_getBalance _ | Pool_fee _ | Pool_liquidity _
    | Quoter_quoteExactInputSingle _ | Quoter_quoteExactOutputSingle _
    | Date_now => fun w => (Resolved 0, w)
    | Factory_getPool _ _ _ | Pool_token0 _ | Pool_token1 _ =>
        fun w => (Resolved ZeroAddress, w)
    | Pool_slot0 _ => fun w => (Resolved {| sqrtPriceX96 := 0; tick := 0 |}, w)
    | Router_estimateGas _ => fun w => (Resolved 100000, w)
    | Signer_sendTransaction _ => fun w => (Resolved "0x7a", w)
    | Tx_wait hash => fun w =>
        match w with
        | O => (Rejected "transaction execution reverted", S w)
        | S _ => (Resolved hash, S w)
        end
    end.

(** Some swap parameters to run [executeSwap] on. *)
Definition someSwap : SwapIn.t :=
  {| SwapIn.tokenIn := TOKEN_IN_ADDRESS; SwapIn.tokenOut := TOKEN_OUT_ADDRESS;
     SwapIn.fee := 3000; SwapIn.recipient := wallet0; SwapIn.deadline := 1700000600;
     SwapIn.amountIn := 10 ^ 19; SwapIn.amountOutMinimum := 14273750000;
     SwapIn.sqrtPriceLimitX96 := 0 |}.

(** The exact-output swap the fallback builds on the reference chain for a
    desired output of 10 tokens. *)
Definition fallbackSwap : SwapOut.t :=
  {| SwapOut.tokenIn := TOKEN_IN_ADDRESS; SwapOut.tokenOut := TOKEN_OUT_ADDRESS;
     SwapOut.fee := 3000; SwapOut.recipient := wallet0; SwapOut.deadline := 1700000600;
     SwapOut.amountOut := 10 ^ 7;
     SwapOut.amountInMaximum := quoteIn (10 ^ 7) * 1050 / 1000;
     SwapOut.sqrtPriceLimitX96 := 0 |}.

(** ** A chain on which no transaction is ever confirmed

    The reference chain with no pools, except that a submitted transaction
    is accepted and then dropped: it changes nothing, and waiting for it is
    rejected. *)
Definition unconfirmed : chain World :=
  fun T c =>
    match c in call T return World -> reply T * World with
    | Signer_sendTransaction _ => fun w => (Resolved "0x7a", w)
    | Tx_wait _ => fun w => (Rejected "transaction was not mined", w)
    | c' => fun w => ledger noPools _ c' w
    end.

(** ** The pool locator as the specification words it

    One scan of a list of lookups, in its order, up to the first lookup that
    does not return the zero address; and what the locator does with the
    result of the scan. *)
Variant located : Type :=
| Located (pool : addr) (fee : Z)
| NoneLocated
| LookupRejected (message : string).

Fixpoint locate {W : Type} (h : chain W) (order : list (addr * addr * Z)) (w : W)
  : located * W * list event :=
  match order with
  | [] => (NoneLocated, w, [])
  | (a, b, fee) :: rest =>
      let '(r, w1) := h _ (Factory_getPool a b fee) w in
      match r with
      | Resolved pool =>
          if (pool =? ZeroAddress)%string then
            let '(l, w2, t) := locate h rest w1 in
            (l, w2, Called (Factory_getPool a b fee) r :: t)
          else (Located pool fee, w1, [Called (Factory_getPool a b fee) r])
      | Rejected message =>
          (LookupRejected message, w1, [Called (Factory_getPool a b fee) r])
      end
  end.

Definition locatePool {W : Type} (h : chain W) (tokenIn tokenOut : TokenInfo) (w : W)
  : (PoolInfo.t + error) * W * list event :=
  let '(l, w1, t1) := locate h (sixLookups (address tokenIn) (address tokenOut)) w in
  match l with
  | Located pool _ =>
      let '(o, w2, t2) := run h (poolDetails tokenIn pool) w1 in
      (o, w2,
       (t1 ++ t2 ++ match o with
                    | inl _ => []
                    | inr e => [Logged "Error retrieving pool information" e]
                    end)%list)
  | NoneLocated =>
      let e := NoPoolExists (symbol tokenIn) (symbol tokenOut) in
      (inr e, w1, (t1 ++ [Logged "Error retrieving pool information" e])%list)
  | LookupRejected message =>
      (inr (Rejection message), w1,
       (t1 ++ [Logged "Error retrieving pool information" (Rejection message)])%list)
  end.

(** * Properties *)

(** ** Running composed programs *)

Lemma run_bind {W A B : Type} (h : chain W) (p : prog A) (f : A -> prog B) (w : W) :
  run h (bind p f) w =
  let '(o, w1, t1) := run h p w in
  match o with
  | inl a => let '(o2, w2, t2) := run h (f a) w1 in (o2, w2, (t1 ++ t2)%list)
  | inr e => (inr e, w1, t1)
  end.
Proof.
  revert w. induction p as [a|e|T c k IH|m e k IH]; intros w; simpl.
  - destruct (run h (f a) w) as [[o2 w2] t2]. reflexivity.
  - reflexivity.
  - destruct (h T c w) as [r w1]. rewrite IH.
    destruct (run h (k r) w1) as [[[a|e] w2] t1]; [|reflexivity].
    destruct (run h (f a) w2) as [[o3 w3] t3]. reflexivity.
  - rewrite IH.
    destruct (run h k w) as [[[a|e'] w2] t1]; [|reflexivity].
    destruct (run h (f a) w2) as [[o3 w3] t3]. reflexivity.
Qed.

Lemma run_try_catch {W A : Type} (h : chain W) (p : prog A) (g : error -> prog A) (w : W) :
  run h (try_catch p g) w =
  let '(o, w1, t1) := run h p w in
  match o with
  | inl a => (inl a, w1, t1)
  | inr e => let '(o2, w2, t2) := run h (g e) w1 in (o2, w2, (t1 ++ t2)%list)
  end.
Proof.
  revert w. induction p as [a|e|T c k IH|m e k IH]; intros w; simpl.
  - reflexivity.
  - destruct (run h (g e) w) as [[o2 w2] t2]. reflexivity.
  - destruct (h T c w) as [r w1]. rewrite IH.
    destruct (run h (k r) w1) as [[[a|e] w2] t1]; [reflexivity|].
    destruct (run h (g e) w2) as [[o3 w3] t3]. reflexivity.
  - rewrite IH.
    destruct (run h k w) as [[[a|e'] w2] t1]; [reflexivity|].
    destruct (run h (g e') w2) as [[o3 w3] t3]. reflexivity.
Qed.

(** ** Properties of every call of a program *)

Lemma sat_weaken {A : Type} R P (Q Q' : A -> Prop) (p : prog A) :
  (forall a, Q a -> Q' a) -> sat R P Q p -> sat R P Q' p.
Proof.
  intros HQ. induction p as [a|e|T c k IH|m e k IH]; simpl; auto.
  intros [Hc Hk]. split; auto.
Qed.

Lemma sat_bind {A B : Type} R P (Q : A -> Prop) (Q' : B -> Prop)
  (p : prog A) (f : A -> prog B) :
  sat R P Q p -> (forall a, Q a -> sat R P Q' (f a)) -> sat R P Q' (bind p f).
Proof.
  intros Hp Hf. induction p as [a|e|T c k IH|m e k IH]; simpl in *; auto.
  destruct Hp as [Hc Hk]. split; auto.
Qed.

Lemma sat_try_catch {A : Type} R P (Q : A -> Prop) (p : prog A) (g : error -> prog A) :
  sat R P Q p -> (forall e, sat R P Q (g e)) -> sat R P Q (try_catch p g).
Proof.
  intros Hp Hg. induction p as [a|e|T c k IH|m e k IH]; simpl in *; auto.
  destruct Hp as [Hc Hk]. split; auto.
Qed.

Lemma sat_await {T : Type} R (P : forall T : Type, call T -> Prop) (c : call T) :
  P _ c -> sat R P (fun v => R _ c (Resolved v)) (await c).
Proof.
  intros Hc. simpl. split; [exact Hc|]. intros [v|m] Hr; simpl; auto.
Qed.

Lemma sat_run {W A : Type} R P (Q : A -> Prop) (h : chain W) (p : prog A) (w : W) :
  answers R h -> sat R P Q p ->
  Forall (calledWith P) (snd (run h p w))
  /\ (forall a, fst (fst (run h p w)) = inl a -> Q a).
Proof.
  intros Hh. revert w. induction p as [a|e|T c k IH|m e k IH]; intros w Hp; simpl in *.
  - split; [constructor|]. intros a' Ha. inversion Ha; subst; exact Hp.
  - split; [constructor|]. intros a' Ha. discriminate Ha.
  - destruct Hp as [Hc Hk]. pose proof (Hh T c w) as Hr.
    destruct (h T c w) as [r w1]. simpl in Hr.
    specialize (IH r w1 (Hk r Hr)).
    destruct (run h (k r) w1) as [[o w2] t]. simpl in *.
    destruct IH as [Ht Ho]. split; [constructor; [exact Hc|exact Ht]|exact Ho].
  - specialize (IH w Hp). destruct (run h k w) as [[o w2] t]. simpl in *.
    destruct IH as [Ht Ho]. split; [constructor; [exact I|exact Ht]|exact Ho].
Qed.

Lemma answers_anyReply {W : Type} (h : chain W) : answers anyReply h.
Proof. intros T c w. exact I. Qed.

(** ** Doubles: the sign of the per-mille factor *)

Definition not_negative (x : spec_float) : Prop :=
  match x with
  | S754_finite true _ _ => False
  | _ => True
  end.

Lemma binary_round_aux_sign sx mx ex lx :
  match binary_round_aux prec emax sx mx ex lx with
  | S754_finite s _ _ => s = sx
  | _ => True
  end.
Proof.
  unfold binary_round_aux.
  destruct (shr_fexp prec emax mx ex lx) as [mrs' e'].
  destruct (shr_fexp prec emax _ e' loc_Exact) as [mrs'' e''].
  destruct (shr_m mrs''); auto.
  destruct (Z.leb e'' _); auto.
Qed.

Lemma binary_normalize_not_negative m e :
  0 <= m -> not_negative (binary_normalize prec emax m e false).
Proof.
  intros Hm. destruct m as [|p|p]; simpl; auto; try lia.
  unfold binary_round. destruct (shl_align _ _ _) as [mz ez].
  pose proof (binary_round_aux_sign false (Zpos mz) ez loc_Exact) as H.
  destruct (binary_round_aux _ _ _ _ _ _); simpl; auto.
  subst. exact I.
Qed.

Lemma SF64mul_not_negative x m e :
  not_negative x -> not_negative (SF64mul x (S754_finite false m e)).
Proof.
  destruct x as [s|s| |s mx ex]; simpl; auto.
  intros H. destruct s; [contradiction|]. simpl.
  pose proof (binary_round_aux_sign false (Zpos (mx * m)) (ex + e) loc_Exact) as H1.
  destruct (binary_round_aux _ _ _ _ _ _); simpl; auto. subst; exact I.
Qed.

Lemma digits2_pos_bound m : Zpos m < 2 ^ Zpos (digits2_pos m).
Proof.
  induction m as [m IH|m IH|]; simpl digits2_pos.
  - rewrite Pos2Z.inj_succ, Z.pow_succ_r by lia. lia.
  - rewrite Pos2Z.inj_succ, Z.pow_succ_r by lia. lia.
  - simpl. lia.
Qed.

Lemma iter_xO_pow m d : Zpos (Pos.iter xO m d) = Zpos m * 2 ^ Zpos d.
Proof.
  induction d as [|d IH] using Pos.peano_ind.
  - simpl. lia.
  - rewrite Pos.iter_succ, Pos2Z.inj_succ, Z.pow_succ_r by lia.
    rewrite Pos2Z.inj_xO, IH. lia.
Qed.

Lemma one_SF : Prim2SF 1%float = S754_finite false 4503599627370496 (-52).
Proof. vm_compute. reflexivity. Qed.

Lemma thousand_SF : Prim2SF 1000%float = S754_finite false 8796093022208000 (-43).
Proof. vm_compute. reflexivity. Qed.

Lemma valid_mantissa_bound m e :
  valid_binary (S754_finite false m e) = true -> Zpos m < 9007199254740992.
Proof.
  unfold SpecFloat.valid_binary, bounded, canonical_mantissa, fexp, SpecFloat.emin, prec, emax.
  intros Hv. apply andb_prop in Hv. destruct Hv as [Hc _]. apply Z.eqb_eq in Hc.
  pose proof (digits2_pos_bound m) as Hd.
  assert (Hle : Zpos (digits2_pos m) <= 53) by lia.
  apply (Z.pow_le_mono_r 2) in Hle; [|lia].
  change (2 ^ 53) with 9007199254740992 in Hle. lia.
Qed.

Lemma one_minus_not_negative x :
  valid_binary x = true ->
  SFleb x (S754_finite false 4503599627370496 (-52)) = true ->
  not_negative (SF64sub (S754_finite false 4503599627370496 (-52)) x).
Proof.
  intros Hv Hle.
  destruct x as [s|s| |s m e]; [exact I|destruct s; exact I|exact I|].
  unfold SF64sub, SFsub. apply binary_normalize_not_negative.
  destruct s; [cbn [cond_Zopp]; lia|].
  pose proof (valid_mantissa_bound m e Hv) as Hm.
  cbn [cond_Zopp].
  unfold SFleb, SFcompare in Hle.
  change (IntDef.Z.compare e (-52)) with (Z.compare e (-52)) in Hle.
  change IntDef.Z.min with Z.min.
  assert (Hcc : forall a b, PosDef.Pos.compare_cont Eq a b = Pos.compare a b)
    by reflexivity.
  rewrite Hcc in Hle.
  destruct (Z.compare_spec e (-52)) as [He|He|He].
  - subst e. rewrite Z.min_id. unfold shl_align. rewrite Z.sub_diag. cbn [fst].
    destruct (Pos.compare_spec m 4503599627370496) as [Hc|Hc|Hc]; try discriminate Hle.
    + subst m. lia.
    + apply Pos2Z.pos_lt_pos in Hc. lia.
  - rewrite Z.min_r by lia.
    unfold shl_align. rewrite Z.sub_diag.
    destruct (e - -52) as [|d|d] eqn:Hd'; try lia.
    cbn [fst]. rewrite iter_xO_pow.
    assert (H2 : 2 ^ 1 <= 2 ^ Zpos d) by (apply Z.pow_le_mono_r; lia).
    change (2 ^ 1) with 2 in H2. lia.
  - discriminate Hle.
Qed.

(** For a tolerance of at most one, the per-mille factor is never negative. *)
Lemma slippageFactor_nonneg s F :
  (s <=? 1)%float = true -> slippageFactor s = Some F -> 0 <= F.
Proof.
  unfold slippageFactor, Js.BigInt_floor. intros Hle.
  rewrite leb_spec, one_SF in Hle.
  rewrite mul_spec, sub_spec, one_SF, thousand_SF.
  pose proof (SF64mul_not_negative _ 8796093022208000 (-43)
                (one_minus_not_negative _ (Prim2SF_valid s) Hle)) as H.
  destruct (SF64mul _ _) as [sg|sg| |sg m e]; intros HF; inversion HF; subst; try lia.
  destruct sg; [contradiction|]. apply Z.shiftl_nonneg. lia.
Qed.

(** ** Doubles: the range of the per-mille factor

    Rounding is followed through the mantissa and exponent arithmetic of the
    IEEE-754 specification: [1 - s] is finite and at most 1 for a double [s]
    strictly between 0 and 1, and its product with 1000 is finite and at most
    1000. *)

Lemma digits2_pos_lower m : 2 ^ (Zpos (digits2_pos m) - 1) <= Zpos m.
Proof.
  induction m as [m IH|m IH|]; simpl digits2_pos.
  - rewrite Pos2Z.inj_succ. replace (Z.succ (Zpos (digits2_pos m)) - 1)
      with (Z.succ (Zpos (digits2_pos m) - 1)) by lia.
    rewrite Z.pow_succ_r by lia. lia.
  - rewrite Pos2Z.inj_succ. replace (Z.succ (Zpos (digits2_pos m)) - 1)
      with (Z.succ (Zpos (digits2_pos m) - 1)) by lia.
    rewrite Z.pow_succ_r by lia. lia.
  - simpl. lia.
Qed.

Lemma Zdigits2_le m k : 0 <= m -> 0 <= k -> m < 2 ^ k -> Zdigits2 m <= k.
Proof.
  intros Hm Hk Hlt. destruct m as [|p|p]; simpl; try lia.
  pose proof (digits2_pos_lower p) as Hl.
  destruct (Z.le_gt_cases (Zpos (digits2_pos p)) k) as [H|H]; [exact H|].
  assert (H2 : 2 ^ k <= 2 ^ (Zpos (digits2_pos p) - 1)) by (apply Z.pow_le_mono_r; lia).
  lia.
Qed.

Lemma Zdigits2_bound m : 0 <= m -> m < 2 ^ Zdigits2 m.
Proof.
  intros Hm. destruct m as [|p|p]; simpl; try lia. apply digits2_pos_bound.
Qed.

Lemma Zdigits2_nonneg m : 0 <= Zdigits2 m.
Proof. destruct m; simpl; lia. Qed.

Lemma shr_1_m mrs : 0 <= shr_m mrs -> shr_m (shr_1 mrs) = shr_m mrs / 2.
Proof.
  destruct mrs as [m r s]. simpl. intros Hm.
  destruct m as [|p|p]; try lia; [reflexivity|].
  destruct p as [p|p|]; simpl shr_m.
  - rewrite <- Z.div2_div. reflexivity.
  - rewrite <- Z.div2_div. reflexivity.
  - reflexivity.
Qed.

Lemma iter_pos_shr p : forall mrs,
  0 <= shr_m mrs -> shr_m (iter_pos shr_1 p mrs) = shr_m mrs / 2 ^ Zpos p.
Proof.
  induction p as [p IH|p IH|]; intros mrs Hm; simpl iter_pos.
  - assert (H1 : 0 <= shr_m (shr_1 mrs)) by (rewrite shr_1_m by lia; apply Z.div_pos; lia).
    assert (H2 : 0 <= shr_m (iter_pos shr_1 p (shr_1 mrs)))
      by (rewrite IH by lia; apply Z.div_pos; [lia|apply Z.pow_pos_nonneg; lia]).
    rewrite IH, IH, shr_1_m by lia.
    assert (Hp : 0 < 2 ^ Zpos p) by (apply Z.pow_pos_nonneg; lia).
    rewrite !Z.div_div by lia.
    replace (Zpos p~1) with (1 + Zpos p + Zpos p) by lia.
    rewrite !Z.pow_add_r by lia. f_equal. change (2 ^ 1) with 2. ring.
  - assert (H2 : 0 <= shr_m (iter_pos shr_1 p mrs))
      by (rewrite IH by lia; apply Z.div_pos; [lia|apply Z.pow_pos_nonneg; lia]).
    rewrite IH, IH by lia.
    assert (Hp : 0 < 2 ^ Zpos p) by (apply Z.pow_pos_nonneg; lia).
    rewrite !Z.div_div by lia.
    replace (Zpos p~0) with (Zpos p + Zpos p) by lia.
    rewrite !Z.pow_add_r by lia. reflexivity.
  - rewrite shr_1_m by lia. reflexivity.
Qed.

Lemma shr_record_of_loc_m m l : shr_m (shr_record_of_loc m l) = m.
Proof. destruct l as [|[ | | ]]; reflexivity. Qed.

Lemma shr_fexp_magnitude m e l K :
  0 <= m -> -1074 <= K -> Zdigits2 m + e <= K ->
  0 <= shr_m (fst (shr_fexp prec emax m e l))
  /\ Zdigits2 (shr_m (fst (shr_fexp prec emax m e l))) + snd (shr_fexp prec emax m e l) <= K.
Proof.
  intros Hm HK Hb. unfold shr_fexp, shr.
  pose proof (Zdigits2_nonneg m) as Hd0.
  assert (Hf : fexp prec emax (Zdigits2 m + e) <= K).
  { unfold fexp, SpecFloat.emin, prec, emax. lia. }
  destruct (fexp prec emax (Zdigits2 m + e) - e) as [|n|n] eqn:Hn; cbn [fst snd].
  - rewrite shr_record_of_loc_m. split; [exact Hm|exact Hb].
  - rewrite iter_pos_shr by (rewrite shr_record_of_loc_m; exact Hm).
    rewrite shr_record_of_loc_m.
    assert (Hp : 0 < 2 ^ Zpos n) by (apply Z.pow_pos_nonneg; lia).
    split; [apply Z.div_pos; lia|].
    pose proof (Zdigits2_bound m Hm) as Hd.
    destruct (Z.le_gt_cases (Zdigits2 m) (Zpos n)) as [Hle|Hgt].
    + assert (Hz : m / 2 ^ Zpos n = 0).
      { apply Z.div_small. split; [exact Hm|].
        assert (2 ^ Zdigits2 m <= 2 ^ Zpos n) by (apply Z.pow_le_mono_r; lia). lia. }
      rewrite Hz. simpl Zdigits2. lia.
    + assert (Hq : m / 2 ^ Zpos n < 2 ^ (Zdigits2 m - Zpos n)).
      { apply Z.div_lt_upper_bound; [lia|].
        rewrite <- Z.pow_add_r by lia.
        replace (Zpos n + (Zdigits2 m - Zpos n)) with (Zdigits2 m) by lia. exact Hd. }
      pose proof (Zdigits2_le (m / 2 ^ Zpos n) (Zdigits2 m - Zpos n)
                    ltac:(apply Z.div_pos; lia) ltac:(lia) Hq). lia.
  - rewrite shr_record_of_loc_m. split; [exact Hm|exact Hb].
Qed.

Lemma round_nearest_even_bounds m l :
  m <= round_nearest_even m l <= m + 1.
Proof.
  destruct l as [|[ | | ]]; simpl; try lia. destruct (Z.even m); lia.
Qed.

Lemma Zdigits2_succ m m' : 0 <= m -> m <= m' <= m + 1 -> Zdigits2 m' <= Zdigits2 m + 1.
Proof.
  intros Hm Hr. pose proof (Zdigits2_bound m Hm) as Hd.
  pose proof (Zdigits2_nonneg m) as Hd0.
  apply Zdigits2_le; try lia.
  rewrite Z.pow_add_r by lia. change (2 ^ 1) with 2. lia.
Qed.

(** Rounding a non-negative mantissa of magnitude at most [K], well inside
    the exponent range, gives zero or a finite double of magnitude at most
    [K + 1]: never an infinity, never NaN. *)
Definition finite_below (K : Z) (x : spec_float) : Prop :=
  match x with
  | S754_zero _ => True
  | S754_finite _ m e => Zpos (digits2_pos m) + e <= K
  | _ => False
  end.

Lemma binary_round_aux_finite sx mx ex lx K :
  0 <= mx -> -1074 <= K -> K <= 970 -> Zdigits2 mx + ex <= K ->
  finite_below (K + 1) (binary_round_aux prec emax sx mx ex lx).
Proof.
  intros Hm HK HK' Hb. unfold binary_round_aux.
  pose proof (shr_fexp_magnitude mx ex lx K Hm HK Hb) as [H0 H1].
  destruct (shr_fexp prec emax mx ex lx) as [mrs' e']. cbn [fst snd] in H0, H1.
  pose proof (round_nearest_even_bounds (shr_m mrs') (loc_of_shr_record mrs')) as Hr.
  pose proof (Zdigits2_succ _ _ H0 Hr) as Hs.
  pose proof (shr_fexp_magnitude (round_nearest_even (shr_m mrs') (loc_of_shr_record mrs'))
                e' loc_Exact (K + 1) ltac:(lia) ltac:(lia) ltac:(lia)) as [H2 H3].
  destruct (shr_fexp prec emax _ e' loc_Exact) as [mrs'' e'']. cbn [fst snd] in H2, H3.
  destruct (shr_m mrs'') as [|m|m]; [exact I| |lia].
  simpl Zdigits2 in H3.
  assert (He : (e'' <=? emax - prec) = true) by (apply Z.leb_le; unfold emax, prec; lia).
  rewrite He. exact H3.
Qed.

Lemma shl_align_magnitude mx ex ex' :
  Zpos (digits2_pos (fst (shl_align mx ex ex'))) + snd (shl_align mx ex ex')
  <= Zpos (digits2_pos mx) + ex.
Proof.
  unfold shl_align. destruct (ex' - ex) as [|d|d] eqn:Hd; cbn [fst snd]; try lia.
  pose proof (digits2_pos_bound mx) as Hb.
  assert (H : Zdigits2 (Zpos (Pos.iter xO mx d)) <= Zpos (digits2_pos mx) + Zpos d).
  { apply Zdigits2_le; try lia. rewrite iter_xO_pow, Z.pow_add_r by lia.
    apply Z.mul_lt_mono_pos_r; [apply Z.pow_pos_nonneg; lia|exact Hb]. }
  simpl Zdigits2 in H. lia.
Qed.

Lemma binary_normalize_finite m e K :
  0 <= m -> -1074 <= K -> K <= 970 -> Zdigits2 m + e <= K ->
  finite_below (K + 1) (binary_normalize prec emax m e false).
Proof.
  intros Hm HK HK' Hb. destruct m as [|p|p]; [exact I| |lia].
  unfold binary_normalize, binary_round.
  pose proof (shl_align_magnitude p e (fexp prec emax (Zpos (digits2_pos p) + e))) as Hs.
  destruct (shl_align p e _) as [mz ez]. cbn [fst snd] in Hs.
  apply binary_round_aux_finite; try lia. simpl Zdigits2. simpl Zdigits2 in Hb. lia.
Qed.

Lemma zero_SF : Prim2SF 0%float = S754_zero false.
Proof. vm_compute. reflexivity. Qed.

(** Doubles strictly between 0 and 1. *)
Lemma between_zero_and_one x :
  SFltb (S754_zero false) x = true ->
  SFltb x (S754_finite false 4503599627370496 (-52)) = true ->
  exists m e, x = S754_finite false m e
              /\ (e < -52 \/ (e = -52 /\ Zpos m < 4503599627370496)).
Proof.
  intros H0 H1. destruct x as [s|s| |s m e]; try discriminate H0.
  - destruct s; [discriminate H0|discriminate H1].
  - destruct s; [discriminate H0|]. exists m, e. split; [reflexivity|].
    unfold SFltb, SFcompare in H1.
    change (IntDef.Z.compare e (-52)) with (Z.compare e (-52)) in H1.
    assert (Hcc : forall a b, PosDef.Pos.compare_cont Eq a b = Pos.compare a b)
      by reflexivity.
    rewrite Hcc in H1.
    destruct (Z.compare_spec e (-52)) as [He|He|He]; try discriminate H1.
    + right. split; [exact He|].
      destruct (Pos.compare_spec m 4503599627370496) as [Hc|Hc|Hc]; try discriminate H1.
      apply Pos2Z.pos_lt_pos in Hc. exact Hc.
    + left. exact He.
Qed.

Lemma one_minus_finite m e :
  Zpos m < 9007199254740992 ->
  -1074 <= e ->
  (e < -52 \/ (e = -52 /\ Zpos m < 4503599627370496)) ->
  finite_below 2 (SF64sub (S754_finite false 4503599627370496 (-52))
                    (S754_finite false m e)).
Proof.
  intros Hm He Hlt. unfold SF64sub, SFsub. cbn [cond_Zopp].
  change IntDef.Z.min with Z.min.
  apply (binary_normalize_finite _ _ 1); try lia.
  - destruct Hlt as [Hlt|[-> Hlt]].
    + rewrite Z.min_r by lia. unfold shl_align. rewrite Z.sub_diag.
      destruct (e - -52) as [|d|d] eqn:Hd'; try lia.
      cbn [fst]. rewrite iter_xO_pow.
      assert (H2 : 2 ^ 1 <= 2 ^ Zpos d) by (apply Z.pow_le_mono_r; lia).
      change (2 ^ 1) with 2 in H2. lia.
    + rewrite Z.min_id. unfold shl_align. rewrite Z.sub_diag. cbn [fst]. lia.
  - destruct Hlt as [Hlt|[-> Hlt]].
    + rewrite Z.min_r by lia. unfold shl_align. rewrite Z.sub_diag.
      destruct (e - -52) as [|d|d] eqn:Hd'; try lia.
      cbn [fst]. rewrite iter_xO_pow.
      assert (H2 : 2 ^ 1 <= 2 ^ Zpos d) by (apply Z.pow_le_mono_r; lia).
      change (2 ^ 1) with 2 in H2.
      assert (Hpow : 4503599627370496 * 2 ^ Zpos d = 2 ^ (52 + Zpos d)).
      { rewrite Z.pow_add_r by lia. reflexivity. }
      assert (Hz : Zdigits2 (4503599627370496 * 2 ^ Zpos d - Zpos m) <= 53 + Zpos d).
      { apply Zdigits2_le; try lia. rewrite Hpow.
        replace (53 + Zpos d) with (Z.succ (52 + Zpos d)) by lia.
        rewrite Z.pow_succ_r by lia.
        assert (0 < 2 ^ (52 + Zpos d)) by (apply Z.pow_pos_nonneg; lia). lia. }
      lia.
    + rewrite Z.min_id. unfold shl_align. rewrite Z.sub_diag. cbn [fst].
      assert (Hz : Zdigits2 (4503599627370496 - Zpos m) <= 53).
      { apply Zdigits2_le; lia. }
      lia.
Qed.

Lemma times_thousand_finite x :
  finite_below 2 x ->
  finite_below 13 (SF64mul x (S754_finite false 8796093022208000 (-43))).
Proof.
  destruct x as [s|s| |s m e]; cbn [finite_below]; try contradiction;
    unfold SF64mul, SFmul; [intros _; exact I|].
  intros Hb.
  apply (binary_round_aux_finite _ _ _ _ 12); try lia.
  pose proof (digits2_pos_bound m) as Hm.
  assert (Hz : Zdigits2 (Zpos (m * 8796093022208000)) <= Zpos (digits2_pos m) + 53).
  { apply Zdigits2_le; try lia. rewrite Z.pow_add_r by lia.
    rewrite Pos2Z.inj_mul. change (2 ^ 53) with 9007199254740992.
    assert (0 < 2 ^ Zpos (digits2_pos m)) by (apply Z.pow_pos_nonneg; lia). nia. }
  change (PosDef.Pos.mul m 8796093022208000) with (m * 8796093022208000)%positive.
  change (IntDef.Z.add e (-43)) with (e + -43). lia.
Qed.

Lemma valid_exponent s m e : valid_binary (S754_finite s m e) = true -> -1074 <= e.
Proof.
  unfold SpecFloat.valid_binary, bounded, canonical_mantissa, fexp, SpecFloat.emin, prec, emax.
  intros Hv. apply andb_prop in Hv. destruct Hv as [Hc _]. apply Z.eqb_eq in Hc. lia.
Qed.

Lemma shr_1_exact mrs q :
  shr_r mrs = false -> shr_s mrs = false -> 0 <= q -> shr_m mrs = 2 * q ->
  shr_r (shr_1 mrs) = false /\ shr_s (shr_1 mrs) = false.
Proof.
  destruct mrs as [m r s]. cbn [shr_m shr_r shr_s]. intros -> -> Hq Hm.
  destruct m as [|p|p]; try lia; [split; reflexivity|].
  destruct p as [p|p|]; try lia. split; reflexivity.
Qed.

Lemma iter_pos_shr_exact p : forall mrs q,
  shr_r mrs = false -> shr_s mrs = false -> 0 <= q -> shr_m mrs = q * 2 ^ Zpos p ->
  shr_r (iter_pos shr_1 p mrs) = false /\ shr_s (iter_pos shr_1 p mrs) = false.
Proof.
  induction p as [p IH|p IH|]; intros mrs q Hr Hs Hq Hm; simpl iter_pos.
  - assert (Hp : 0 < 2 ^ Zpos p) by (apply Z.pow_pos_nonneg; lia).
    assert (E : shr_m mrs = 2 * (q * 2 ^ Zpos p * 2 ^ Zpos p)).
    { rewrite Hm. replace (Zpos p~1) with (1 + Zpos p + Zpos p) by lia.
      rewrite !Z.pow_add_r by lia. change (2 ^ 1) with 2. ring. }
    assert (Hq1 : 0 <= q * 2 ^ Zpos p) by nia.
    assert (Hq2 : 0 <= q * 2 ^ Zpos p * 2 ^ Zpos p) by nia.
    destruct (shr_1_exact mrs (q * 2 ^ Zpos p * 2 ^ Zpos p) Hr Hs Hq2 E) as [Hr1 Hs1].
    assert (E1 : shr_m (shr_1 mrs) = q * 2 ^ Zpos p * 2 ^ Zpos p).
    { rewrite shr_1_m by lia. rewrite E. rewrite Z.mul_comm, Z.div_mul by lia. reflexivity. }
    destruct (IH (shr_1 mrs) (q * 2 ^ Zpos p) Hr1 Hs1 Hq1 E1) as [Hr2 Hs2].
    apply (IH _ q Hr2 Hs2 Hq).
    rewrite iter_pos_shr by lia. rewrite E1, Z.div_mul by lia. reflexivity.
  - assert (Hp : 0 < 2 ^ Zpos p) by (apply Z.pow_pos_nonneg; lia).
    assert (E1 : shr_m mrs = q * 2 ^ Zpos p * 2 ^ Zpos p).
    { rewrite Hm. replace (Zpos p~0) with (Zpos p + Zpos p) by lia.
      rewrite !Z.pow_add_r by lia. ring. }
    assert (Hq1 : 0 <= q * 2 ^ Zpos p) by nia.
    destruct (IH mrs (q * 2 ^ Zpos p) Hr Hs Hq1 E1) as [Hr2 Hs2].
    apply (IH _ q Hr2 Hs2 Hq).
    rewrite iter_pos_shr by lia. rewrite E1, Z.div_mul by lia. reflexivity.
  - apply (shr_1_exact mrs q Hr Hs Hq). rewrite Hm. change (2 ^ 1) with 2. ring.
Qed.

(** What the first step of rounding does to an exactly known mantissa:
    the exponent moves up to the canonical one, the mantissa is divided, and
    the location is exact when the division is. *)
Lemma shr_fexp_exact m e :
  0 <= m ->
  let '(mrs, e') := shr_fexp prec emax m e loc_Exact in
  e' = Z.max e (fexp prec emax (Zdigits2 m + e))
  /\ shr_m mrs = m / 2 ^ (e' - e)
  /\ (forall q, 0 <= q -> m = q * 2 ^ (e' - e) -> loc_of_shr_record mrs = loc_Exact).
Proof.
  intros Hm. unfold shr_fexp, shr.
  destruct (fexp prec emax (Zdigits2 m + e) - e) as [|n|n] eqn:Hn.
  - split; [lia|]. replace (e - e) with 0 by lia. simpl shr_m. rewrite Z.div_1_r.
    split; reflexivity.
  - split; [lia|]. replace (e + Zpos n - e) with (Zpos n) by lia.
    rewrite iter_pos_shr by (simpl; exact Hm). split; [reflexivity|].
    intros q Hq E.
    destruct (iter_pos_shr_exact n {| shr_m := m; shr_r := false; shr_s := false |} q
                eq_refl eq_refl Hq E) as [Hr Hs].
    destruct (iter_pos shr_1 n _) as [m' r' s']. simpl in Hr, Hs. subst. reflexivity.
  - split; [lia|]. replace (e - e) with 0 by lia. simpl shr_m. rewrite Z.div_1_r.
    split; reflexivity.
Qed.

(** A non-negative mantissa and a non-positive exponent whose value is at
    most [c]. *)
Definition at_most (c m e : Z) : Prop := e <= 0 /\ m <= c * 2 ^ (- e).

Definition finite_at_most (c : Z) (x : spec_float) : Prop :=
  match x with
  | S754_zero _ => True
  | S754_finite _ m e => at_most c (Zpos m) e
  | _ => False
  end.

Lemma at_most_shift c m e e' :
  0 <= m -> 0 <= c -> e <= e' -> e' <= 0 -> at_most c m e ->
  at_most c (m / 2 ^ (e' - e)) e'.
Proof.
  intros Hm Hc He He' [_ Hb]. split; [exact He'|].
  assert (Hp : 0 < 2 ^ (e' - e)) by (apply Z.pow_pos_nonneg; lia).
  assert (E : c * 2 ^ (- e) = c * 2 ^ (- e') * 2 ^ (e' - e)).
  { rewrite <- Z.mul_assoc, <- Z.pow_add_r by lia. f_equal. f_equal. lia. }
  rewrite E in Hb. apply Z.div_le_upper_bound; [lia|]. lia.
Qed.

Lemma binary_round_aux_at_most sx mx ex K c :
  0 <= mx -> -1074 <= K -> K <= 52 -> Zdigits2 mx + ex <= K -> 0 <= c ->
  at_most c mx ex ->
  finite_at_most c (binary_round_aux prec emax sx mx ex loc_Exact).
Proof.
  intros Hm HK HK' Hd Hc Hb.
  pose proof (binary_round_aux_finite sx mx ex loc_Exact K Hm HK ltac:(lia) Hd) as Hfin.
  unfold binary_round_aux in *.
  pose proof (shr_fexp_magnitude mx ex loc_Exact K Hm HK Hd) as [H0 H1].
  pose proof (shr_fexp_exact mx ex Hm) as Hx.
  destruct (shr_fexp prec emax mx ex loc_Exact) as [mrs' e'].
  cbn [fst snd] in H0, H1. destruct Hx as (He' & Hm' & Hloc).
  pose proof (Zdigits2_nonneg mx) as Hdn.
  assert (He0 : e' <= 0).
  { rewrite He'. destruct Hb as [He _]. unfold fexp, SpecFloat.emin, prec, emax. lia. }
  assert (Hge : ex <= e') by lia.
  pose proof (at_most_shift c mx ex e' Hm Hc Hge He0 Hb) as [_ Hb'].
  rewrite <- Hm' in Hb'.
  set (m1 := round_nearest_even (shr_m mrs') (loc_of_shr_record mrs')) in *.
  pose proof (round_nearest_even_bounds (shr_m mrs') (loc_of_shr_record mrs')) as Hr.
  fold m1 in Hr.
  assert (Hb1 : m1 <= c * 2 ^ (- e')).
  { destruct (Z.eq_dec (shr_m mrs') (c * 2 ^ (- e'))) as [E|N]; [|lia].
    assert (Hexact : loc_of_shr_record mrs' = loc_Exact).
    { apply (Hloc (c * 2 ^ (- e'))).
      - apply Z.mul_nonneg_nonneg; [exact Hc|apply Z.pow_nonneg; lia].
      - assert (Hp : 0 < 2 ^ (e' - ex)) by (apply Z.pow_pos_nonneg; lia).
        destruct Hb as [_ Hb].
        assert (E2 : c * 2 ^ (- ex) = c * 2 ^ (- e') * 2 ^ (e' - ex)).
        { rewrite <- Z.mul_assoc, <- Z.pow_add_r by lia. f_equal. f_equal. lia. }
        pose proof (Z.mul_div_le mx (2 ^ (e' - ex)) Hp) as Hle.
        rewrite <- Hm', E in Hle. lia. }
    unfold m1. rewrite Hexact. simpl. lia. }
  assert (Hm1 : 0 <= m1) by lia.
  pose proof (Zdigits2_succ _ _ H0 Hr) as Hs.
  pose proof (shr_fexp_exact m1 e' Hm1) as Hx2.
  destruct (shr_fexp prec emax m1 e' loc_Exact) as [mrs'' e''].
  destruct Hx2 as (He'' & Hm'' & _).
  pose proof (Zdigits2_nonneg m1) as Hdn1.
  assert (He0' : e'' <= 0).
  { rewrite He''. unfold fexp, SpecFloat.emin, prec, emax. lia. }
  pose proof (at_most_shift c m1 e' e'' Hm1 Hc ltac:(lia) He0' (conj He0 Hb1)) as Hfinal.
  rewrite <- Hm'' in Hfinal.
  destruct (shr_m mrs'') as [|m|m]; [exact I| |contradiction].
  destruct (e'' <=? emax - prec); [exact Hfinal|contradiction].
Qed.

Lemma shl_align_at_most c mx ex ex' :
  0 <= c -> at_most c (Zpos mx) ex ->
  at_most c (Zpos (fst (shl_align mx ex ex'))) (snd (shl_align mx ex ex')).
Proof.
  intros Hc [He Hb]. unfold shl_align.
  destruct (ex' - ex) as [|d|d] eqn:Hd; cbn [fst snd]; try (split; assumption).
  split; [lia|]. rewrite iter_xO_pow.
  replace (- ex') with (- ex + Zpos d) by lia. rewrite Z.pow_add_r by lia.
  assert (Hp : 0 < 2 ^ Zpos d) by (apply Z.pow_pos_nonneg; lia). nia.
Qed.

Lemma binary_normalize_at_most m e K c :
  0 <= m -> -1074 <= K -> K <= 52 -> Zdigits2 m + e <= K -> 0 <= c ->
  at_most c m e ->
  finite_at_most c (binary_normalize prec emax m e false).
Proof.
  intros Hm HK HK' Hd Hc Hb. destruct m as [|p|p]; [exact I| |lia].
  unfold binary_normalize, binary_round.
  pose proof (shl_align_magnitude p e (fexp prec emax (Zpos (digits2_pos p) + e))) as Hs.
  pose proof (shl_align_at_most c p e (fexp prec emax (Zpos (digits2_pos p) + e)) Hc Hb) as Ha.
  destruct (shl_align p e _) as [mz ez]. cbn [fst snd] in Hs, Ha.
  apply (binary_round_aux_at_most _ _ _ K); try lia; try assumption.
  simpl Zdigits2. simpl Zdigits2 in Hd. lia.
Qed.

Lemma one_minus_at_most m e :
  Zpos m < 9007199254740992 ->
  -1074 <= e ->
  (e < -52 \/ (e = -52 /\ Zpos m < 4503599627370496)) ->
  finite_at_most 1 (SF64sub (S754_finite false 4503599627370496 (-52))
                      (S754_finite false m e)).
Proof.
  intros Hm He Hlt. unfold SF64sub, SFsub. cbn [cond_Zopp].
  change IntDef.Z.min with Z.min.
  destruct Hlt as [Hlt|[-> Hlt]].
  - rewrite Z.min_r by lia. unfold shl_align. rewrite Z.sub_diag.
    destruct (e - -52) as [|d|d] eqn:Hd'; try lia.
    cbn [fst].
    assert (H2 : 2 ^ 1 <= 2 ^ Zpos d) by (apply Z.pow_le_mono_r; lia).
    change (2 ^ 1) with 2 in H2.
    assert (Hpow : Zpos (Pos.iter xO 4503599627370496%positive d) = 2 ^ (- e)).
    { rewrite iter_xO_pow. replace (- e) with (52 + Zpos d) by lia.
      rewrite Z.pow_add_r by lia. reflexivity. }
    rewrite Hpow.
    assert (H53 : 2 ^ 53 <= 2 ^ (- e)) by (apply Z.pow_le_mono_r; lia).
    change (2 ^ 53) with 9007199254740992 in H53.
    assert (Hp1 : 2 ^ (- e + 1) = 2 * 2 ^ (- e)).
    { rewrite Z.pow_add_r by lia. change (2 ^ 1) with 2. ring. }
    apply (binary_normalize_at_most _ _ 1); try lia.
    + assert (Hz : Zdigits2 (2 ^ (- e) - Zpos m) <= - e + 1).
      { apply Zdigits2_le; lia. }
      lia.
    + split; lia.
  - rewrite Z.min_id. unfold shl_align. rewrite Z.sub_diag. cbn [fst].
    apply (binary_normalize_at_most _ _ 1); try lia.
    + assert (Hz : Zdigits2 (4503599627370496 - Zpos m) <= 53).
      { apply Zdigits2_le; lia. }
      lia.
    + split; [lia|]. change (2 ^ (- -52)) with 4503599627370496. lia.
Qed.

Lemma times_thousand_at_most x :
  finite_below 2 x -> finite_at_most 1 x ->
  finite_at_most 1000 (SF64mul x (S754_finite false 8796093022208000 (-43))).
Proof.
  destruct x as [s|s| |s m e]; cbn [finite_below finite_at_most]; try contradiction;
    unfold SF64mul, SFmul; [intros _ _; exact I|].
  intros Hb [He Ha].
  pose proof (digits2_pos_bound m) as Hm.
  assert (Hz : Zdigits2 (Zpos (m * 8796093022208000)) <= Zpos (digits2_pos m) + 53).
  { apply Zdigits2_le; try lia. rewrite Z.pow_add_r by lia.
    rewrite Pos2Z.inj_mul. change (2 ^ 53) with 9007199254740992.
    assert (0 < 2 ^ Zpos (digits2_pos m)) by (apply Z.pow_pos_nonneg; lia). nia. }
  change (PosDef.Pos.mul m 8796093022208000) with (m * 8796093022208000)%positive.
  change (IntDef.Z.add e (-43)) with (e + -43).
  apply (binary_round_aux_at_most _ _ _ 12); try lia.
  split; [lia|]. rewrite Pos2Z.inj_mul.
  replace (- (e + -43)) with (43 + - e) by lia. rewrite Z.pow_add_r by lia.
  change (2 ^ 43) with 8796093022208. 
  assert (0 < 2 ^ (- e)) by (apply Z.pow_pos_nonneg; lia). nia.
Qed.

Lemma slippageFactor_at_most tolerance :
  (0 <? tolerance)%float = true -> (tolerance <? 1)%float = true ->
  exists F, slippageFactor tolerance = Some F /\ F <= 1000.
Proof.
  intros H0 H1. rewrite ltb_spec, zero_SF in H0. rewrite ltb_spec, one_SF in H1.
  destruct (between_zero_and_one _ H0 H1) as (m & e & Hx & Hlt).
  pose proof (Prim2SF_valid tolerance) as Hv. rewrite Hx in Hv.
  pose proof (valid_mantissa_bound m e Hv) as Hm.
  pose proof (valid_exponent _ _ _ Hv) as He.
  pose proof (times_thousand_at_most _ (one_minus_finite m e Hm He Hlt)
                (one_minus_at_most m e Hm He Hlt)) as Hf.
  unfold slippageFactor, Js.BigInt_floor.
  rewrite mul_spec, sub_spec, one_SF, thousand_SF, Hx.
  destruct (SF64mul _ _) as [sg|sg| |sg mz ez]; cbn [finite_at_most] in Hf;
    try contradiction.
  - exists 0. split; [reflexivity|lia].
  - eexists. split; [reflexivity|]. destruct Hf as [Hez Hb].
    assert (Hp : 0 < 2 ^ (- ez)) by (apply Z.pow_pos_nonneg; lia).
    destruct sg.
    + assert (Hneg : Z.shiftl (Z.neg mz) ez < 0) by (apply Z.shiftl_neg; lia). lia.
    + rewrite Z.shiftl_div_pow2 by lia. apply Z.div_le_upper_bound; lia.
Qed.

(** ** The minimum output *)

Lemma slippageFactor_configured : slippageFactor SLIPPAGE_TOLERANCE = Some 950.
Proof. vm_compute. reflexivity. Qed.

Lemma Qfloor_per_mille (q F : Z) (sQ : Q) :
  (inject_Z F == 1000 * (1 - sQ))%Q ->
  Qfloor (inject_Z q * (1 - sQ)) = q * F / 1000.
Proof.
  intros HF.
  assert (E : (inject_Z q * (1 - sQ) == (q * F) # 1000)%Q).
  { setoid_replace (1 - sQ)%Q with (inject_Z F / 1000)%Q by (rewrite HF; field).
    unfold Qeq, Qdiv, Qmult, Qinv, inject_Z. simpl. ring. }
  rewrite (Qfloor_comp _ _ E). reflexivity.
Qed.




(** ** Calls that carry no swap parameters *)

(** Calls other than quotes, gas estimates and swap submissions. *)
Definition benign (T : Type) (c : call T) : Prop :=
  match c with
  | Quoter_quoteExactInputSingle _ | Quoter_quoteExactOutputSingle _
  | Router_estimateGas _ => False
  | Signer_sendTransaction tx =>
      match data tx with
      | ExactInputSingle _ | ExactOutputSingle _ => False
      | _ => True
      end
  | _ => True
  end.

Ltac sat_crush HP :=
  repeat (simpl;
          match goal with
          | |- True => exact I
          | |- _ /\ _ => split
          | |- forall _, _ => intro
          | |- context [match ?r with Resolved _ => _ | Rejected _ => _ end] =>
              is_var r; destruct r
          | |- context [if ?b then _ else _] => destruct b
          | |- _ => solve [apply HP; exact I]
          end).

Section Benign.

Variable R : forall T : Type, call T -> reply T -> Prop.
Variable P : forall T : Type, call T -> Prop.
Hypothesis HP : forall (T : Type) (c : call T), benign T c -> P T c.

Lemma sat_fetchTokenInfo a : sat R P (fun _ => True) (fetchTokenInfo a).
Proof. unfold fetchTokenInfo, all3. sat_crush HP. Qed.

Lemma sat_logBalances wallet tokenIn tokenOut :
  sat R P (fun _ => True) (logBalances wallet tokenIn tokenOut).
Proof. unfold logBalances, all3. sat_crush HP. Qed.

Lemma sat_settle {T : Type} (r : reply T) : sat R P (fun _ => True) (settle r).
Proof. destruct r; simpl; exact I. Qed.

Lemma sat_bigint {A : Type} (v : option A) :
  sat R P (fun a => v = Some a) (bigint v).
Proof. destruct v; simpl; auto. Qed.

Lemma sat_approveToken tokenInfo amount wallet :
  sat R P (fun _ => True) (approveToken tokenInfo amount wallet).
Proof. unfold approveToken, checkBalance. sat_crush HP. Qed.

Lemma sat_findPool a b tiers : sat R P (fun _ => True) (findPool a b tiers).
Proof. induction tiers as [|fee rest IH]; simpl; auto. sat_crush HP. exact IH. Qed.

Lemma sat_poolDetails tokenIn pool : sat R P (fun _ => True) (poolDetails tokenIn pool).
Proof. unfold poolDetails, all5. sat_crush HP. Qed.

Lemma sat_getPoolInfo tokenIn tokenOut :
  sat R P (fun _ => True) (getPoolInfo tokenIn tokenOut).
Proof.
  unfold getPoolInfo. apply sat_try_catch; [|intros e; simpl; exact I].
  eapply sat_bind; [apply sat_findPool|]. intros forward _.
  eapply sat_bind with (Q := fun _ => True).
  - destruct forward; [simpl; exact I|apply sat_findPool].
  - intros [[pool usedFee]|] _; [|simpl; exact I].
    destruct (pool =? ZeroAddress)%string; [simpl; exact I|apply sat_poolDetails].
Qed.

Lemma sat_wrapEthToWeth parseUnits wallet ethAmount weth :
  sat R P (fun _ => True) (wrapEthToWeth parseUnits wallet ethAmount weth).
Proof.
  unfold wrapEthToWeth. destruct (parseUnits ethAmount 18); sat_crush HP.
Qed.

End Benign.

Lemma benign_noPriceLimit (T : Type) (c : call T) : benign T c -> noPriceLimit T c.
Proof.
  destruct c; simpl; auto; try contradiction.
  destruct (data tx); auto; contradiction.
Qed.

Lemma benign_minimumAtLeastOne (T : Type) (c : call T) :
  benign T c -> minimumAtLeastOne T c.
Proof.
  destruct c; simpl; auto; try contradiction.
  destruct (data tx); auto; contradiction.
Qed.

Lemma sat_await_any {T : Type} R (P : forall T : Type, call T -> Prop) (c : call T) :
  P _ c -> sat R P (fun _ => True) (await c).
Proof.
  intros Hc. simpl. split; [exact Hc|]. intros [v|m] _; simpl; exact I.
Qed.

Lemma sat_bind_any {A B : Type} R P (Q' : B -> Prop) (p : prog A) (f : A -> prog B) :
  sat R P (fun _ => True) p -> (forall a, sat R P Q' (f a)) -> sat R P Q' (bind p f).
Proof. intros Hp Hf. apply (sat_bind R P (fun _ => True)); auto. Qed.

(** The calls of [diagnose], [submitSwap], [executeSwap] and
    [tryExactOutputSwap], for a property [P] of calls that holds of the swap
    parameters they are given. *)
Section SwapCalls.

Variable R : forall T : Type, call T -> reply T -> Prop.
Variable P : forall T : Type, call T -> Prop.
Hypothesis HP : forall (T : Type) (c : call T), benign T c -> P T c.

Lemma sat_diagnose params :
  (forall amount,
     P _ (Quoter_quoteExactInputSingle
            {| QuoteIn.tokenIn := SwapIn.tokenIn params;
               QuoteIn.tokenOut := SwapIn.tokenOut params;
               QuoteIn.fee := SwapIn.fee params;
               QuoteIn.amountIn := amount;
               QuoteIn.sqrtPriceLimitX96 := 0 |})) ->
  sat R P (fun _ => True) (diagnose params).
Proof.
  intros Hq. unfold diagnose.
  apply sat_try_catch; [|intros e; simpl; exact I].
  apply sat_bind_any; [apply sat_await_any, HP; exact I|]. intros pool.
  apply sat_bind_any; [apply sat_await_any, HP; exact I|]. intros _.
  apply sat_try_catch; [|intros e; simpl; exact I].
  apply sat_bind_any; [apply sat_await_any, Hq|]. intros _. simpl. exact I.
Qed.

Lemma sat_submitSwap params gas :
  (forall g, P _ (Signer_sendTransaction
                    {| to := SWAP_ROUTER_CONTRACT_ADDRESS;
                       data := ExactInputSingle params; gasLimit := g |})) ->
  sat R P (fun _ => True) (submitSwap params gas).
Proof.
  intros Hs. unfold submitSwap.
  apply sat_bind_any; [apply sat_await_any, Hs|]. intros hash.
  apply sat_await_any, HP. exact I.
Qed.

Lemma sat_executeSwap params tokenIn tokenOut :
  P _ (Router_estimateGas params) ->
  (forall g, P _ (Signer_sendTransaction
                    {| to := SWAP_ROUTER_CONTRACT_ADDRESS;
                       data := ExactInputSingle params; gasLimit := g |})) ->
  (forall amount,
     P _ (Quoter_quoteExactInputSingle
            {| QuoteIn.tokenIn := SwapIn.tokenIn params;
               QuoteIn.tokenOut := SwapIn.tokenOut params;
               QuoteIn.fee := SwapIn.fee params;
               QuoteIn.amountIn := amount;
               QuoteIn.sqrtPriceLimitX96 := 0 |})) ->
  sat R P (fun _ => True) (executeSwap params tokenIn tokenOut).
Proof.
  intros He Hs Hq. unfold executeSwap.
  apply sat_try_catch.
  - apply sat_try_catch.
    + apply sat_bind_any; [apply sat_await_any, He|]. intros gasEstimate.
      apply sat_submitSwap, Hs.
    + intros gasError. simpl. apply sat_submitSwap, Hs.
  - intros error. simpl. apply sat_bind_any; [|intros _; simpl; exact I].
    destruct (revertedWithoutReason error); [apply sat_diagnose, Hq|simpl; exact I].
Qed.

Lemma sat_tryExactOutputSwap parseUnits signer tolerance poolFee desired tokenIn tokenOut :
  (forall p, QuoteOut.sqrtPriceLimitX96 p = 0 -> P _ (Quoter_quoteExactOutputSingle p)) ->
  (forall p g, SwapOut.sqrtPriceLimitX96 p = 0 ->
     P _ (Signer_sendTransaction
            {| to := SWAP_ROUTER_CONTRACT_ADDRESS;
               data := ExactOutputSingle p; gasLimit := g |})) ->
  sat R P (fun _ => True)
    (tryExactOutputSwap parseUnits signer tolerance poolFee desired tokenIn tokenOut).
Proof.
  intros Hq Hs. unfold tryExactOutputSwap.
  apply sat_try_catch; [|intros e; simpl; exact I].
  apply sat_bind_any; [apply sat_settle|]. intros amountOut.
  apply sat_bind_any; [apply sat_await_any, Hq; reflexivity|]. intros amountInMaximum.
  apply sat_bind_any.
  { eapply sat_weaken; [|apply sat_bigint]. auto. }
  intros adjusted.
  apply sat_bind_any; [apply sat_await_any, HP; exact I|]. intros now.
  apply sat_bind_any; [apply sat_approveToken, HP|]. intros _.
  apply sat_bind_any; [apply sat_await_any, Hs; reflexivity|]. intros hash.
  apply sat_await_any, HP. exact I.
Qed.

Lemma sat_getQuote params tokenOut :
  P _ (Quoter_quoteExactInputSingle params) ->
  sat R P (fun q => R _ (Quoter_quoteExactInputSingle params) (Resolved q))
    (getQuote params tokenOut).
Proof.
  intros Hq. unfold getQuote. simpl. split; [exact Hq|].
  intros [v|m] Hr; simpl; auto.
Qed.

Lemma sat_main parseUnits formatUnitsNumber signer tolerance tryExactOutput swapAmount :
  (forall p, QuoteIn.sqrtPriceLimitX96 p = 0 -> P _ (Quoter_quoteExactInputSingle p)) ->
  (forall p, QuoteOut.sqrtPriceLimitX96 p = 0 -> P _ (Quoter_quoteExactOutputSingle p)) ->
  (forall p g, SwapOut.sqrtPriceLimitX96 p = 0 ->
     P _ (Signer_sendTransaction
            {| to := SWAP_ROUTER_CONTRACT_ADDRESS;
               data := ExactOutputSingle p; gasLimit := g |})) ->
  (forall params quoteParams quoted,
     R _ (Quoter_quoteExactInputSingle quoteParams) (Resolved quoted) ->
     amountOutMinimum tolerance quoted = Some (SwapIn.amountOutMinimum params) ->
     SwapIn.sqrtPriceLimitX96 params = 0 ->
     P _ (Router_estimateGas params)
     /\ forall g, P _ (Signer_sendTransaction
                         {| to := SWAP_ROUTER_CONTRACT_ADDRESS;
                            data := ExactInputSingle params; gasLimit := g |})) ->
  sat R P (fun _ => True)
    (main parseUnits formatUnitsNumber signer tolerance tryExactOutput swapAmount).
Proof.
  intros Hqi Hqo Hso Hsi. unfold main.
  apply sat_try_catch; [|intros e; simpl; exact I].
  apply sat_bind_any; [apply sat_fetchTokenInfo, HP|]. intros tokenIn.
  apply sat_bind_any; [apply sat_fetchTokenInfo, HP|]. intros tokenOut.
  apply sat_bind_any; [apply sat_logBalances, HP|]. intros initialBalances.
  apply sat_bind_any; [apply sat_settle|]. intros amountIn.
  apply sat_bind_any; [apply sat_approveToken, HP|]. intros _.
  apply sat_bind_any; [apply sat_getPoolInfo, HP|]. intros pool.
  eapply sat_bind; [apply sat_getQuote, Hqi; reflexivity|]. intros quoted Hquoted.
  eapply sat_bind; [apply sat_bigint|]. intros minimum Hminimum.
  apply sat_bind_any; [apply sat_await_any, HP; exact I|]. intros now.
  match goal with
  | |- context [executeSwap ?params _ _] =>
      destruct (Hsi params _ quoted Hquoted Hminimum eq_refl) as [He Hs]
  end.
  apply sat_try_catch.
  - apply sat_bind_any.
    + apply sat_executeSwap; [exact He|exact Hs|].
      intros amount. apply Hqi. reflexivity.
    + intros receipt. apply sat_bind_any; [apply sat_logBalances, HP|].
      intros finalBalances. simpl. exact I.
  - intros swapError. cbn [sat]. destruct tryExactOutput; [|simpl; exact I].
    apply sat_bind_any; [apply sat_tryExactOutputSwap; assumption|]. intros receipt.
    apply sat_bind_any; [apply sat_logBalances, HP|]. intros finalBalances.
    simpl. exact I.
Qed.

End SwapCalls.

(** C5.  For every tolerance of at most one and every quote that is not
    negative, the bound the executor computes is at least 1, and it is 1
    whenever the truncated product is 0; on every chain whose quoter returns
    unsigned amounts, every exact-input swap that [main] hands to the router
    (for gas estimation or for submission) carries a minimum output of at
    least 1. *)
Theorem amountOutMinimum_at_least_one (tolerance : float) :
  (tolerance <=? 1)%float = true ->
  (forall quotedOut m, 0 <= quotedOut ->
     amountOutMinimum tolerance quotedOut = Some m ->
     1 <= m
     /\ (forall F, slippageFactor tolerance = Some F ->
           Z.quot (quotedOut * F) 1000 = 0 -> m = 1))
  /\ (forall (W : Type) (h : chain W) parseUnits formatUnitsNumber signer
        tryExactOutput swapAmount (w : W),
        answers unsignedQuotes h ->
        Forall (calledWith minimumAtLeastOne)
          (snd (run h (main parseUnits formatUnitsNumber signer tolerance
                         tryExactOutput swapAmount) w))).
Proof.
  intros Hle.
  assert (Hpure : forall quotedOut m, 0 <= quotedOut ->
     amountOutMinimum tolerance quotedOut = Some m ->
     1 <= m
     /\ (forall F, slippageFactor tolerance = Some F ->
           Z.quot (quotedOut * F) 1000 = 0 -> m = 1)).
  { intros q m Hq Hm. unfold amountOutMinimum in Hm.
    destruct (slippageFactor tolerance) as [F|] eqn:HF; [|discriminate].
    pose proof (slippageFactor_nonneg _ _ Hle HF) as HF0.
    inversion Hm; subst m; clear Hm.
    assert (Hprod : 0 <= Z.quot (q * F) 1000).
    { rewrite Z.quot_div_nonneg by nia. apply Z.div_pos; nia. }
    unfold clampZero. split.
    - destruct (Z.eqb_spec (Z.quot (q * F) 1000) 0); lia.
    - intros F' HF' Hz. inversion HF'; subst F'. rewrite Hz. reflexivity. }
  split; [exact Hpure|].
  intros W h parseUnits formatUnitsNumber signer tryExactOutput swapAmount w Hh.
  apply (sat_run unsignedQuotes minimumAtLeastOne (fun _ => True)); [exact Hh|].
  apply sat_main.
  - exact benign_minimumAtLeastOne.
  - intros p _. exact I.
  - intros p _. exact I.
  - intros p g _. exact I.
  - intros params quoteParams quoted Hq Hm _. simpl in Hq.
    destruct (Hpure quoted _ Hq Hm) as [H1 _]. simpl. auto.
Qed.

Lemma ledgerOn_unsignedQuotes input pools : answers unsignedQuotes (ledgerOn input pools).
Proof.
  intros T c w. destruct c; simpl; auto.
  destruct (Z.ltb_spec (QuoteIn.amountIn params) 0); [exact I|].
  unfold quoteOut. apply Z.div_pos; lia.
Qed.

Lemma ledger_unsignedQuotes pools : answers unsignedQuotes (ledger pools).
Proof. apply ledgerOn_unsignedQuotes. Qed.

Lemma amountOutMinimum_at_least_one_witness :
  (SLIPPAGE_TOLERANCE <=? 1)%float = true
  /\ answers unsignedQuotes (ledger onePool)
  /\ Forall (calledWith minimumAtLeastOne)
       (snd (run (ledger onePool) (script 10%float) (world0 (10 ^ 20) 0))).
Proof.
  split; [reflexivity|]. split; [exact (ledger_unsignedQuotes onePool)|].
  apply (proj2 (amountOutMinimum_at_least_one SLIPPAGE_TOLERANCE eq_refl)).
  exact (ledger_unsignedQuotes onePool).
Defined.

(** C7.  At the configured 5% tolerance, a quote of 150.25 output tokens, in
    smallest units of a token with [d >= 2] decimals, gives a minimum output of
    142.7375 tokens truncated to [d] decimals; with 6 decimals that is
    142737500 units. *)
Theorem minimum_for_150_25_at_5_percent (d : Z) :
  2 <= d ->
  amountOutMinimum SLIPPAGE_TOLERANCE (15025 * 10 ^ (d - 2))
  = Some (1427375 * 10 ^ d / 10 ^ 4).
Proof.
  intros Hd. unfold amountOutMinimum. rewrite slippageFactor_configured.
  assert (HN : 0 < 10 ^ (d - 2)) by (apply Z.pow_pos_nonneg; lia).
  replace (10 ^ d) with (10 ^ (d - 2) * 100)
    by (replace d with ((d - 2) + 2) at 2 by lia;
        rewrite Z.pow_add_r by lia; reflexivity).
  set (N := 10 ^ (d - 2)) in *.
  rewrite Z.quot_div_nonneg by lia.
  replace (15025 * N * 950) with (14273750 * N) by lia.
  replace (1427375 * (N * 100)) with (14273750 * N * 10) by lia.
  change (10 ^ 4) with (1000 * 10).
  rewrite Z.div_mul_cancel_r by lia.
  unfold clampZero.
  assert (14273 <= 14273750 * N / 1000).
  { apply Z.div_le_lower_bound; lia. }
  destruct (Z.eqb_spec (14273750 * N / 1000) 0); [lia|reflexivity].
Qed.

Lemma minimum_for_150_25_at_5_percent_witness :
  2 <= 6 /\ amountOutMinimum SLIPPAGE_TOLERANCE 150250000 = Some 142737500.
Proof.
  split; [lia|]. exact (minimum_for_150_25_at_5_percent 6 ltac:(lia)).
Defined.

(** C8, as amended.  In the first script of [src/old_scripts/index2.js],
    whenever the per-mille factor [floor((1 - s) * 1000)] the doubles compute
    lies strictly between -1000 and 1000 (as 950 does, for the configured
    0.05), the slippage factor is 0 and so is [amountOutMinimum], for every
    quoted amount. *)
Theorem old_amountOutMinimum_is_zero (tolerance : float) (perMille quotedOut : Z) :
  Js.BigInt_floor ((1 - tolerance) * 1000)%float = Some perMille ->
  -1000 < perMille < 1000 ->
  Old.slippageFactor tolerance = Some 0
  /\ Old.amountOutMinimum tolerance quotedOut = Some 0.
Proof.
  intros HF Hr. unfold Old.amountOutMinimum, Old.slippageFactor. rewrite HF.
  assert (Hq : Z.quot perMille 1000 = 0).
  { apply Z.quot_small_iff; lia. }
  rewrite Hq, Z.mul_0_r. split; reflexivity.
Qed.

Lemma old_amountOutMinimum_is_zero_witness :
  Js.BigInt_floor ((1 - Old.SLIPPAGE_TOLERANCE) * 1000)%float = Some 950
  /\ -1000 < 950 < 1000
  /\ Old.amountOutMinimum Old.SLIPPAGE_TOLERANCE 150250000 = Some 0.
Proof.
  split; [vm_compute; reflexivity|]. split; [lia|].
  exact (proj2 (old_amountOutMinimum_is_zero Old.SLIPPAGE_TOLERANCE 950 150250000
                  eq_refl ltac:(lia))).
Defined.

(** C8, as stated, fails: 2^-60 is a double in (0,1], yet [1 - 2^-60] rounds
    to 1, the factor is [1000 / 1000 = 1] and [amountOutMinimum] is the quote
    itself. *)
Lemma old_amountOutMinimum_not_always_zero :
  (0 <? 0x1p-60)%float = true /\ (0x1p-60 <=? 1)%float = true
  /\ Old.amountOutMinimum 0x1p-60%float 150250000 = Some 150250000.
Proof. repeat split; vm_compute; reflexivity. Qed.

(** C10.  On every chain and for every configuration, every quote request
    and every swap handed to the router in a run of [main] (the exact-input
    quote, the diagnostic quote, the exact-input swap, and the quote and the
    swap of the exact-output fallback) has [sqrtPriceLimitX96 = 0]; so has
    every quote and swap of [tryExactOutputSwap] run on its own. *)
Theorem no_price_limit :
  forall (W : Type) (h : chain W) (w : W) parseUnits formatUnitsNumber signer
         tolerance,
    (forall tryExactOutput swapAmount,
       Forall (calledWith noPriceLimit)
         (snd (run h (main parseUnits formatUnitsNumber signer tolerance
                        tryExactOutput swapAmount) w)))
    /\ (forall poolFee desired tokenIn tokenOut,
          Forall (calledWith noPriceLimit)
            (snd (run h (tryExactOutputSwap parseUnits signer tolerance poolFee
                           desired tokenIn tokenOut) w))).
Proof.
  intros W h w parseUnits formatUnitsNumber signer tolerance. split.
  - intros tryExactOutput swapAmount.
    apply (sat_run anyReply noPriceLimit (fun _ => True));
      [apply answers_anyReply|].
    apply sat_main.
    + exact benign_noPriceLimit.
    + intros p Hp. exact Hp.
    + intros p Hp. exact Hp.
    + intros p g Hp. exact Hp.
    + intros params quoteParams quoted _ _ Hp. split; [exact Hp|]. intros g. exact Hp.
  - intros poolFee desired tokenIn tokenOut.
    apply (sat_run anyReply noPriceLimit (fun _ => True));
      [apply answers_anyReply|].
    apply sat_tryExactOutputSwap.
    + exact benign_noPriceLimit.
    + intros p Hp. exact Hp.
    + intros p g Hp. exact Hp.
Qed.

(** ** The approver *)

(** C3, as amended.  On every chain, when the wallet's balance of the token
    reads below the required amount, the approver raises the insufficient
    balance error, logs it, and fails with the generic error of line 257
    (Token approval failed); the balance read is its only call: it reads no
    allowance and submits no transaction, and the world is the one the balance
    read left. *)
Theorem approveToken_insufficient_balance
  (W : Type) (h : chain W) (w w1 : W) (tokenInfo : TokenInfo)
  (amount balance : Z) (wallet : addr) :
  h _ (Token_balanceOf (address tokenInfo) wallet) w = (Resolved balance, w1) ->
  balance < amount ->
  run h (approveToken tokenInfo amount wallet) w
  = (inr TokenApprovalFailed, w1,
     [Called (Token_balanceOf (address tokenInfo) wallet) (Resolved balance);
      Logged "Error during token approval"
        (InsufficientBalance (symbol tokenInfo) balance amount)]).
Proof.
  intros Hb Hlt. unfold approveToken, checkBalance. simpl. rewrite Hb. simpl.
  apply Z.ltb_lt in Hlt. rewrite Hlt. reflexivity.
Qed.

Lemma approveToken_insufficient_balance_witness :
  ledger noPools _ (Token_balanceOf (address tokenWETH) wallet0) (world0 0 0)
  = (Resolved 0, world0 0 0)
  /\ 0 < 1
  /\ run (ledger noPools) (approveToken tokenWETH 1 wallet0) (world0 0 0)
     = (inr TokenApprovalFailed, world0 0 0,
        [Called (Token_balanceOf (address tokenWETH) wallet0) (Resolved 0);
         Logged "Error during token approval" (InsufficientBalance "WETH" 0 1)]).
Proof.
  split; [reflexivity|]. split; [lia|].
  exact (approveToken_insufficient_balance World (ledger noPools) (world0 0 0)
           (world0 0 0) tokenWETH 1 0 wallet0 eq_refl ltac:(lia)).
Defined.

(** C3, as stated, fails: with a balance of 0 and 1 unit to approve, the
    error the approver fails with is the generic one, not the insufficient
    balance error. *)
Lemma approveToken_does_not_fail_with_InsufficientBalance :
  fst (fst (run (ledger noPools) (approveToken tokenWETH 1 wallet0) (world0 0 0)))
  = inr TokenApprovalFailed
  /\ fst (fst (run (ledger noPools) (approveToken tokenWETH 1 wallet0) (world0 0 0)))
     <> inr (InsufficientBalance "WETH" 0 1).
Proof. split; [reflexivity|discriminate]. Qed.

Lemma ledger_erc20 pools : erc20 (ledger pools) wallet0.
Proof.
  unfold ledger. constructor.
  - intros token owner w. reflexivity.
  - intros token owner spender w. reflexivity.
  - intros token spender amount gas w hash w1 receipt w2 Hs Hw.
    simpl in Hs, Hw. inversion Hs; subst. inversion Hw; subst.
    split; reflexivity.
Qed.

(** With enough balance and enough allowance, the approver only reads. *)
Lemma approveToken_already_approved
  (W : Type) (h : chain W) (w : W) tokenInfo amount wallet balance allowance :
  h _ (Token_balanceOf (address tokenInfo) wallet) w = (Resolved balance, w) ->
  amount <= balance ->
  h _ (Token_allowance (address tokenInfo) wallet SWAP_ROUTER_CONTRACT_ADDRESS) w
  = (Resolved allowance, w) ->
  amount <= allowance ->
  run h (approveToken tokenInfo amount wallet) w
  = (inl AlreadyApproved, w,
     [Called (Token_balanceOf (address tokenInfo) wallet) (Resolved balance);
      Called (Token_allowance (address tokenInfo) wallet SWAP_ROUTER_CONTRACT_ADDRESS)
        (Resolved allowance)]).
Proof.
  intros Hb Hle Ha Hle'. unfold approveToken, checkBalance. simpl.
  rewrite Hb. simpl.
  destruct (Z.ltb_spec balance amount) as [Hlt|_]; [lia|]. simpl.
  rewrite Ha. simpl.
  destruct (Z.geb_spec allowance amount) as [_|Hlt]; [|lia]. reflexivity.
Qed.

(** C4, as amended.  On a chain that behaves as ERC-20 towards the wallet,
    after an invocation of the approver that returns, a second invocation with
    the same amount reads a sufficient balance and an allowance of at least the
    amount, returns "already approved" and submits nothing: the two
    invocations together submit at most one approval transaction. *)
Theorem approveToken_idempotent
  (W : Type) (h : chain W) (wallet : addr) (tokenInfo : TokenInfo) (amount : Z)
  (w w1 : W) (r1 : approval) (t1 : list event) :
  erc20 h wallet ->
  run h (approveToken tokenInfo amount wallet) w = (inl r1, w1, t1) ->
  exists balance allowance,
    amount <= balance /\ amount <= allowance
    /\ run h (approveToken tokenInfo amount wallet) w1
       = (inl AlreadyApproved, w1,
          [Called (Token_balanceOf (address tokenInfo) wallet) (Resolved balance);
           Called (Token_allowance (address tokenInfo) wallet
                     SWAP_ROUTER_CONTRACT_ADDRESS) (Resolved allowance)])
    /\ Nat.le
         (approvals
            (t1 ++ [Called (Token_balanceOf (address tokenInfo) wallet) (Resolved balance);
                    Called (Token_allowance (address tokenInfo) wallet
                              SWAP_ROUTER_CONTRACT_ADDRESS) (Resolved allowance)]))
         1.
Proof.
  intros [Hbal Hall Happ] Hrun.
  unfold approveToken, checkBalance in Hrun. simpl in Hrun.
  pose proof (Hbal (address tokenInfo) wallet w) as Hb.
  destruct (h _ (Token_balanceOf (address tokenInfo) wallet) w) as [[b|m] wa] eqn:Eb;
    simpl in Hb; subst wa; simpl in Hrun; [|discriminate Hrun].
  destruct (Z.ltb_spec b amount) as [Hlt|Hge]; simpl in Hrun; [discriminate Hrun|].
  pose proof (Hall (address tokenInfo) wallet SWAP_ROUTER_CONTRACT_ADDRESS w) as Ha.
  destruct (h _ (Token_allowance (address tokenInfo) wallet
                   SWAP_ROUTER_CONTRACT_ADDRESS) w) as [[a|m] wa] eqn:Ea;
    simpl in Ha; subst wa; simpl in Hrun; [|discriminate Hrun].
  destruct (Z.geb_spec a amount) as [Hge'|Hlt']; simpl in Hrun.
  - inversion Hrun; subst. exists b, a. repeat split; try assumption.
    + apply approveToken_already_approved; assumption.
    + unfold approvals, sent, Nat.le. simpl. lia.
  - destruct (h _ (Signer_sendTransaction _) w) as [[hash|m] ws] eqn:Es;
      simpl in Hrun; [|discriminate Hrun].
    destruct (h _ (Tx_wait hash) ws) as [[receipt|m] ww] eqn:Ew;
      simpl in Hrun; [|discriminate Hrun].
    destruct (Happ _ _ _ _ _ _ _ _ _ Es Ew) as [Ha2 Hb2].
    pose proof (Hall (address tokenInfo) wallet SWAP_ROUTER_CONTRACT_ADDRESS ww) as Hp.
    pose proof (Hbal (address tokenInfo) wallet ww) as Hq.
    destruct (h _ (Token_allowance (address tokenInfo) wallet
                     SWAP_ROUTER_CONTRACT_ADDRESS) ww) as [ra wx] eqn:Ea2.
    simpl in Ha2, Hp. subst ra wx. simpl in Hrun.
    inversion Hrun; subst.
    destruct (h _ (Token_balanceOf (address tokenInfo) wallet) w1) as [rb wy] eqn:Eb2.
    rewrite Eb in Hb2. simpl in Hb2, Hq. subst rb wy.
    exists b, amount. repeat split; try assumption; try lia.
    + apply approveToken_already_approved; try assumption; lia.
    + unfold approvals, sent, Nat.le. simpl. lia.
Qed.

Lemma approveToken_idempotent_witness :
  erc20 (ledger noPools) wallet0
  /\ run (ledger noPools) (approveToken tokenWETH 5 wallet0) (world0 9 0)
     = (inl (Approved "0x7a"), world0 9 5,
        [Called (Token_balanceOf TOKEN_IN_ADDRESS wallet0) (Resolved 9);
         Called (Token_allowance TOKEN_IN_ADDRESS wallet0 SWAP_ROUTER_CONTRACT_ADDRESS)
           (Resolved 0);
         Called (Signer_sendTransaction
                   {| to := TOKEN_IN_ADDRESS;
                      data := Approve SWAP_ROUTER_CONTRACT_ADDRESS 5;
                      gasLimit := 100000 |}) (Resolved "0x7a");
         Called (Tx_wait "0x7a") (Resolved "0x7a");
         Called (Token_allowance TOKEN_IN_ADDRESS wallet0 SWAP_ROUTER_CONTRACT_ADDRESS)
           (Resolved 5)])
  /\ exists balance allowance,
       5 <= balance /\ 5 <= allowance
       /\ run (ledger noPools) (approveToken tokenWETH 5 wallet0) (world0 9 5)
          = (inl AlreadyApproved, world0 9 5,
             [Called (Token_balanceOf (address tokenWETH) wallet0) (Resolved balance);
              Called (Token_allowance (address tokenWETH) wallet0
                        SWAP_ROUTER_CONTRACT_ADDRESS) (Resolved allowance)])
       /\ Nat.le
            (approvals
             ([Called (Token_balanceOf TOKEN_IN_ADDRESS wallet0) (Resolved 9);
               Called (Token_allowance TOKEN_IN_ADDRESS wallet0
                         SWAP_ROUTER_CONTRACT_ADDRESS) (Resolved 0);
               Called (Signer_sendTransaction
                         {| to := TOKEN_IN_ADDRESS;
                            data := Approve SWAP_ROUTER_CONTRACT_ADDRESS 5;
                            gasLimit := 100000 |}) (Resolved "0x7a");
               Called (Tx_wait "0x7a") (Resolved "0x7a");
               Called (Token_allowance TOKEN_IN_ADDRESS wallet0
                         SWAP_ROUTER_CONTRACT_ADDRESS) (Resolved 5)]
              ++ [Called (Token_balanceOf (address tokenWETH) wallet0) (Resolved balance);
                  Called (Token_allowance (address tokenWETH) wallet0
                            SWAP_ROUTER_CONTRACT_ADDRESS) (Resolved allowance)]))
            1.
Proof.
  split; [exact (ledger_erc20 noPools)|]. split; [reflexivity|].
  exact (approveToken_idempotent World (ledger noPools) wallet0 tokenWETH 5
           (world0 9 0) (world0 9 5) (Approved "0x7a") _
           (ledger_erc20 noPools) eq_refl).
Defined.

Lemma unconfirmed_erc20 : erc20 unconfirmed wallet0.
Proof.
  constructor.
  - intros token owner w. reflexivity.
  - intros token owner spender w. reflexivity.
  - intros token spender amount gas w hash w1 receipt w2 Hs Hw. discriminate Hw.
Qed.

(** C4, as stated, fails: sufficient balance is not enough.  On a chain that
    behaves as ERC-20 but on which the approval is submitted and never
    confirmed, the first invocation fails after it has submitted, the allowance
    is still 0, and the second invocation submits the approval again: two
    approval transactions for a balance of 9 and an amount of 5. *)
Lemma approveToken_twice_submits_twice :
  erc20 unconfirmed wallet0
  /\ fst (unconfirmed _ (Token_balanceOf TOKEN_IN_ADDRESS wallet0) (world0 9 0))
     = Resolved 9
  /\ 5 <= 9
  /\ let '(o1, w1, t1) :=
       run unconfirmed (approveToken tokenWETH 5 wallet0) (world0 9 0) in
     let '(o2, w2, t2) := run unconfirmed (approveToken tokenWETH 5 wallet0) w1 in
     o1 = inr TokenApprovalFailed /\ o2 = inr TokenApprovalFailed
     /\ sent t1 = [{| to := TOKEN_IN_ADDRESS;
                      data := Approve SWAP_ROUTER_CONTRACT_ADDRESS 5;
                      gasLimit := 100000 |}]
     /\ sent t2 = sent t1
     /\ approvals (t1 ++ t2) = 2%nat.
Proof.
  split; [exact unconfirmed_erc20|]. split; [reflexivity|]. split; [lia|].
  vm_compute. repeat split; reflexivity.
Qed.

(** ** The pool locator *)

Lemma lookups_app (t1 t2 : list event) :
  lookups (t1 ++ t2) = (lookups t1 ++ lookups t2)%list.
Proof. unfold lookups. apply flat_map_app. Qed.

(** Reading the details of a pool makes no lookup, returns that pool, and
    fails only with a rejection. *)
Lemma poolDetails_run (W : Type) (h : chain W) tokenIn pool (w : W) :
  forall o w' t, run h (poolDetails tokenIn pool) w = (o, w', t) ->
  flat_map lookupOf t = []
  /\ (forall info, o = inl info -> PoolInfo.poolContract info = pool)
  /\ (forall e, o = inr e -> exists m, e = Rejection m).
Proof.
  intros o w' t. unfold poolDetails, all5. simpl.
  destruct (h _ (Pool_token0 pool) w) as [r0 w0].
  destruct (h _ (Pool_token1 pool) w0) as [r1 w1].
  destruct (h _ (Pool_fee pool) w1) as [r2 w2].
  destruct (h _ (Pool_liquidity pool) w2) as [r3 w3].
  destruct (h _ (Pool_slot0 pool) w3) as [r4 w4].
  destruct r0, r1, r2, r3, r4; simpl; intros E; inversion E; subst;
    (split; [reflexivity|]); split; intros x Hx; inversion Hx; subst; eauto.
Qed.

Definition isNoPoolFound {A : Type} (o : A + error) : Prop :=
  exists symbolIn symbolOut, o = inr (NoPoolExists symbolIn symbolOut).

(** One lookup of the locator, and the test of what it returned. *)
Ltac locate_step :=
  match goal with
  | H : (?p =? ZeroAddress)%string = _ |- context [(?p =? ZeroAddress)%string] =>
      rewrite H; simpl
  | |- context [?h _ (Factory_getPool ?a ?b ?f) ?w] =>
      let p := fresh "p" in
      let m := fresh "m" in
      let w' := fresh "w" in
      destruct (h _ (Factory_getPool a b f) w) as [[p|m] w']; simpl
  | |- context [(?p =? ZeroAddress)%string] =>
      is_var p;
      let Hp := fresh "Hp" in
      destruct (p =? ZeroAddress)%string eqn:Hp;
      [apply String.eqb_eq in Hp; subst p|]; simpl
  end.

(** The lookups before the last one, when the list is written out. *)
Ltac split_last :=
  first [ exists []; do 3 eexists; reflexivity
        | eexists [_]; do 3 eexists; reflexivity
        | eexists [_; _]; do 3 eexists; reflexivity
        | eexists [_; _; _]; do 3 eexists; reflexivity
        | eexists [_; _; _; _]; do 3 eexists; reflexivity
        | eexists [_; _; _; _; _]; do 3 eexists; reflexivity ].

(** One loop of the locator is the scan of its three lookups. *)
Lemma findPool_locate {W : Type} (h : chain W) a b tiers (w : W) :
  run h (findPool a b tiers) w
  = let '(l, w1, t) := locate h (map (fun fee => (a, b, fee)) tiers) w in
    (match l with
     | Located pool fee => inl (Some (pool, fee))
     | NoneLocated => inl None
     | LookupRejected message => inr (Rejection message)
     end, w1, t).
Proof.
  revert w. induction tiers as [|fee rest IH]; intros w; [reflexivity|].
  cbn [findPool map locate]. unfold await. cbn [bind run].
  destruct (h _ (Factory_getPool a b fee) w) as [[pool|message] w1]; cbn [bind run];
    [|reflexivity].
  destruct (pool =? ZeroAddress)%string; cbn [negb]; [|reflexivity].
  rewrite IH. destruct (locate h _ w1) as [[l w2] t]. reflexivity.
Qed.

Lemma locate_app {W : Type} (h : chain W) first second (w : W) :
  locate h (first ++ second) w
  = let '(l, w1, t1) := locate h first w in
    match l with
    | NoneLocated => let '(l2, w2, t2) := locate h second w1 in (l2, w2, (t1 ++ t2)%list)
    | _ => (l, w1, t1)
    end.
Proof.
  revert w. induction first as [|[[a b] fee] rest IH]; intros w; cbn [app locate].
  - destruct (locate h second w) as [[l2 w2] t2]. reflexivity.
  - destruct (h _ (Factory_getPool a b fee) w) as [[pool|message] w1]; [|reflexivity].
    destruct (pool =? ZeroAddress)%string; [|reflexivity].
    rewrite IH. destruct (locate h rest w1) as [[[pool' fee'| |message] w2] t2];
      try reflexivity.
    destruct (locate h second w2) as [[l3 w3] t3]. reflexivity.
Qed.

Lemma locate_not_zero {W : Type} (h : chain W) order (w w1 : W) pool fee t :
  locate h order w = (Located pool fee, w1, t) -> (pool =? ZeroAddress)%string = false.
Proof.
  revert w t. induction order as [|[[a b] f] rest IH]; intros w t; cbn [locate].
  - discriminate.
  - destruct (h _ (Factory_getPool a b f) w) as [[p|message] w2]; [|discriminate].
    destruct (p =? ZeroAddress)%string eqn:Hp.
    + destruct (locate h rest w2) as [[l w3] t3] eqn:E. intros H. inversion H; subst.
      apply (IH _ _ E).
    + intros H. inversion H; subst. exact Hp.
Qed.


Lemma poolDetails_resolved (W : Type) (h : chain W) (w : W) tokenA tokenB pool g1 g2 :
  (forall e, exists m k, g1 e = LogError m e k /\ k = Throw e) ->
  (forall e, exists m k, g2 e = LogError m e k /\ k = Throw e) ->
  resolvedPool (fst (fst (run h (try_catch (poolDetails tokenA pool) g1) w)))
  = resolvedPool (fst (fst (run h (try_catch (poolDetails tokenB pool) g2) w))).
Proof.
  intros H1 H2. unfold poolDetails, all5. simpl.
  destruct (h _ (Pool_token0 pool) w) as [r0 w0].
  destruct (h _ (Pool_token1 pool) w0) as [r1 w1].
  destruct (h _ (Pool_fee pool) w1) as [r2 w2].
  destruct (h _ (Pool_liquidity pool) w2) as [r3 w3].
  destruct (h _ (Pool_slot0 pool) w3) as [r4 w4].
  destruct r0, r1, r2, r3, r4; simpl; try reflexivity;
    match goal with
    | |- context [run h (g1 ?e) ?w] =>
        destruct (H1 e) as (m1 & k1 & -> & ->);
        destruct (H2 e) as (m2 & k2 & -> & ->); reflexivity
    end.
Qed.

(** C6, as amended.  For a fixed factory table that is symmetric in the two
    token addresses (as the Uniswap V3 factory's is), the pool locator resolves
    (tokenA, tokenB) and (tokenB, tokenA) to the same pool address and fee. *)
Theorem getPoolInfo_order_independent
  (W : Type) (h : chain W) (factory : addr -> addr -> Z -> addr) (w : W)
  (tokenA tokenB : TokenInfo) :
  fixedFactory h factory ->
  (forall a b fee, factory a b fee = factory b a fee) ->
  resolvedPool (fst (fst (run h (getPoolInfo tokenA tokenB) w)))
  = resolvedPool (fst (fst (run h (getPoolInfo tokenB tokenA) w))).
Proof.
  intros Hfix Hsym. unfold getPoolInfo.
  pose proof (fun g1 g2 p w => poolDetails_resolved W h w tokenA tokenB p g1 g2) as Hd.
  set (dA := poolDetails tokenA) in *. set (dB := poolDetails tokenB) in *.
  clearbody dA dB.
  assert (HAB : forall fee w0, h _ (Factory_getPool (address tokenA) (address tokenB) fee) w0
                               = (Resolved (factory (address tokenA) (address tokenB) fee), w0))
    by (intros; apply Hfix).
  assert (HBA : forall fee w0, h _ (Factory_getPool (address tokenB) (address tokenA) fee) w0
                               = (Resolved (factory (address tokenA) (address tokenB) fee), w0))
    by (intros; rewrite Hfix, Hsym; reflexivity).
  unfold feeTiers. simpl.
  rewrite ?HAB, ?HBA. simpl.
  repeat match goal with
         | |- context [(factory ?a ?b ?f =? ZeroAddress)%string] =>
             destruct (factory a b f =? ZeroAddress)%string; simpl;
             rewrite ?HAB, ?HBA; simpl
         end.
  all: try reflexivity.
  all: match goal with
       | |- resolvedPool (fst (fst ?X)) = resolvedPool (fst (fst ?Y)) =>
           match X with
           | context [run ?h (try_catch (?a ?p) ?g1) ?w1] =>
               match Y with
               | context [run h (try_catch (?b p) ?g2) w1] =>
                   pose proof (Hd g1 g2 p w1) as Hp;
                   destruct (run h (try_catch (a p) g1) w1) as [[? ?] ?];
                   destruct (run h (try_catch (b p) g2) w1) as [[? ?] ?];
                   simpl in *; apply Hp; intros e; do 2 eexists; split; reflexivity
               end
           end
       end.
Qed.

Lemma getPoolInfo_order_independent_witness :
  fixedFactory (ledger onePool) onePool
  /\ (forall a b fee, onePool a b fee = onePool b a fee)
  /\ resolvedPool (fst (fst (run (ledger onePool) (getPoolInfo tokenWETH tokenUSDC)
                               (world0 0 0))))
     = resolvedPool (fst (fst (run (ledger onePool) (getPoolInfo tokenUSDC tokenWETH)
                                 (world0 0 0)))).
Proof.
  split; [intros a b fee w; reflexivity|]. split; [intros a b fee; reflexivity|].
  apply (getPoolInfo_order_independent World (ledger onePool) onePool).
  - intros a b fee w. reflexivity.
  - intros a b fee. reflexivity.
Defined.

(** C6, as stated, fails: over a fixed factory table that knows the pair as
    (in, out) only at tier 3000 and as (out, in) only at tier 500, the locator
    resolves (in, out) to the 3000 pool and (out, in) to the 500 pool. *)
Lemma getPoolInfo_depends_on_order :
  fixedFactory (ledger lopsided) lopsided
  /\ resolvedPool (fst (fst (run (ledger lopsided) (getPoolInfo tokenWETH tokenUSDC)
                               (world0 0 0))))
     = Some (pool3000, 3000)
  /\ resolvedPool (fst (fst (run (ledger lopsided) (getPoolInfo tokenUSDC tokenWETH)
                               (world0 0 0))))
     = Some (pool500, 500).
Proof.
  split; [intros a b fee w; reflexivity|]. split; vm_compute; reflexivity.
Qed.

(** ** Which error each function fails with *)

Lemma try_catch_wraps {W A : Type} (h : chain W) (p : prog A) (m : string) (c : error)
  (w w' : W) (e : error) (t : list event) :
  run h (try_catch p (fun error => LogError m error (Throw c))) w = (inr e, w', t) ->
  e = c.
Proof.
  rewrite run_try_catch.
  destruct (run h p w) as [[[a|e0] w1] t1]; simpl; intros H; inversion H; reflexivity.
Qed.

Lemma fetchTokenInfo_error {W : Type} (h : chain W) a (w w' : W) e t :
  run h (fetchTokenInfo a) w = (inr e, w', t) -> e = TokenInfoFailed a.
Proof. apply try_catch_wraps. Qed.

Lemma logBalances_error {W : Type} (h : chain W) wallet tokenIn tokenOut (w w' : W) e t :
  run h (logBalances wallet tokenIn tokenOut) w = (inr e, w', t) -> e = BalancesFailed.
Proof. apply try_catch_wraps. Qed.

Lemma approveToken_error {W : Type} (h : chain W) tokenInfo amount wallet (w w' : W) e t :
  run h (approveToken tokenInfo amount wallet) w = (inr e, w', t) ->
  e = TokenApprovalFailed.
Proof. apply try_catch_wraps. Qed.

Lemma getQuote_error {W : Type} (h : chain W) params tokenOut (w w' : W) e t :
  run h (getQuote params tokenOut) w = (inr e, w', t) -> e = QuoteFailed.
Proof. apply try_catch_wraps. Qed.

Lemma tryExactOutputSwap_error {W : Type} (h : chain W) parseUnits signer tolerance
  poolFee desired tokenIn tokenOut (w w' : W) e t :
  run h (tryExactOutputSwap parseUnits signer tolerance poolFee desired tokenIn tokenOut) w
  = (inr e, w', t) ->
  e = ExactOutputSwapFailed.
Proof. apply try_catch_wraps. Qed.

Lemma wrapEthToWeth_error {W : Type} (h : chain W) parseUnits wallet ethAmount weth
  (w w' : W) e t :
  run h (wrapEthToWeth parseUnits wallet ethAmount weth) w = (inr e, w', t) ->
  e = EthWrappingFailed.
Proof. apply try_catch_wraps. Qed.

Lemma executeSwap_error {W : Type} (h : chain W) params tokenIn tokenOut (w w' : W) e t :
  run h (executeSwap params tokenIn tokenOut) w = (inr e, w', t) ->
  e = SwapTransactionFailed.
Proof.
  unfold executeSwap. rewrite run_try_catch.
  destruct (run h (try_catch _ _) w) as [[[a|e0] w1] t1]; [intros H; discriminate H|].
  cbn [run]. rewrite run_bind.
  destruct (run h (if revertedWithoutReason e0 then diagnose params else Ret tt) w1)
    as [[[u|e1] w2] t2] eqn:Ed.
  - simpl. intros H. inversion H. reflexivity.
  - exfalso. destruct (revertedWithoutReason e0); [|discriminate Ed].
    unfold diagnose in Ed. rewrite run_try_catch in Ed.
    destruct (run h _ w1) as [[[u|e2] w3] t3]; [discriminate Ed|].
    simpl in Ed. discriminate Ed.
Qed.

Lemma settle_error {W T : Type} (h : chain W) (r : reply T) (w w' : W) e t :
  run h (settle r) w = (inr e, w', t) -> exists m, e = Rejection m.
Proof. destruct r; simpl; intros H; inversion H. eauto. Qed.

Lemma bigint_error {W A : Type} (h : chain W) (v : option A) (w w' : W) e t :
  run h (bigint v) w = (inr e, w', t) -> e = RangeError.
Proof. destruct v; simpl; intros H; inversion H. reflexivity. Qed.

Lemma await_error {W T : Type} (h : chain W) (c : call T) (w w' : W) e t :
  run h (await c) w = (inr e, w', t) -> exists m, e = Rejection m.
Proof.
  unfold await. simpl. destruct (h T c w) as [[v|m] w1]; simpl; intros H; inversion H.
  eauto.
Qed.

(** ** The order of the pipeline *)

(** C9.  On every chain, a run of [main] that ends with the no-pool error has
    a trace made of what came before the approver, then the trace of an
    approver invocation that returned, then the trace of the failing pool
    locator, then the final log line: the approver had finished before the
    first lookup.  And such a run can have submitted an approval: on the
    reference chain with no pool and no allowance, [main] ends with the
    no-pool error after one approval transaction was sent and confirmed, and
    the allowance it set stays. *)
Theorem NoPoolFound_after_approval :
  (forall (W : Type) (h : chain W) (w w' : W) parseUnits formatUnitsNumber signer
          tolerance tryExactOutput swapAmount symbolIn symbolOut t,
     run h (main parseUnits formatUnitsNumber signer tolerance tryExactOutput
              swapAmount) w
     = (inr (NoPoolExists symbolIn symbolOut), w', t) ->
     exists tokenIn tokenOut amountIn r w0 w1 before approving locating,
       t = (before ++ approving ++ locating
            ++ [Logged "An error occurred during swap execution"
                  (NoPoolExists symbolIn symbolOut)])%list
       /\ run h (approveToken tokenIn amountIn signer) w0 = (inl r, w1, approving)
       /\ run h (getPoolInfo tokenIn tokenOut) w1
          = (inr (NoPoolExists symbolIn symbolOut), w', locating))
  /\ (let '(o, w', t) :=
        run (ledger noPools) (script 10%float) (world0 (10 ^ 20) 0) in
      o = inr (NoPoolExists "WETH" "USDC")
      /\ approvals t = 1%nat
      /\ In (Called (Tx_wait "0x7a") (Resolved "0x7a")) t
      /\ allowed w' = 10 ^ 19).
Proof.
  split.
  - intros W h w w' parseUnits formatUnitsNumber signer tolerance tryExactOutput
      swapAmount symbolIn symbolOut t H.
    unfold main in H. rewrite run_try_catch in H.
    rewrite run_bind in H.
    destruct (run h (fetchTokenInfo TOKEN_IN_ADDRESS) w) as [[[tokenIn|e] w1] t1] eqn:E1;
      [|apply fetchTokenInfo_error in E1; subst e; simpl in H; discriminate H].
    rewrite run_bind in H.
    destruct (run h (fetchTokenInfo TOKEN_OUT_ADDRESS) w1) as [[[tokenOut|e] w2] t2] eqn:E2;
      [|apply fetchTokenInfo_error in E2; subst e; simpl in H; discriminate H].
    rewrite run_bind in H.
    destruct (run h (logBalances signer tokenIn tokenOut) w2)
      as [[[initialBalances|e] w3] t3] eqn:E3;
      [|apply logBalances_error in E3; subst e; simpl in H; discriminate H].
    rewrite run_bind in H.
    destruct (run h (settle (parseUnits swapAmount (decimals tokenIn))) w3)
      as [[[amountIn|e] w4] t4] eqn:E4;
      [|apply settle_error in E4; destruct E4 as [m ->]; simpl in H; discriminate H].
    rewrite run_bind in H.
    destruct (run h (approveToken tokenIn amountIn signer) w4)
      as [[[r|e] w5] t5] eqn:E5;
      [|apply approveToken_error in E5; subst e; simpl in H; discriminate H].
    rewrite run_bind in H.
    destruct (run h (getPoolInfo tokenIn tokenOut) w5) as [[[pool|e] w6] t6] eqn:E6.
    + exfalso.
      rewrite run_bind in H.
      destruct (run h (getQuote _ tokenOut) w6) as [[[quoted|e] w7] t7] eqn:E7;
        [|apply getQuote_error in E7; subst e; simpl in H; discriminate H].
      rewrite run_bind in H.
      destruct (run h (bigint (amountOutMinimum tolerance quoted)) w7)
        as [[[minimum|e] w8] t8] eqn:E8;
        [|apply bigint_error in E8; subst e; simpl in H; discriminate H].
      rewrite run_bind in H.
      destruct (run h (await Date_now) w8) as [[[now|e] w9] t9] eqn:E9;
        [|apply await_error in E9; destruct E9 as [m ->]; simpl in H; discriminate H].
      rewrite run_try_catch in H.
      destruct (run h (bind (executeSwap _ tokenIn tokenOut) _) w9)
        as [[[res|e] w10] t10] eqn:E10; [simpl in H; discriminate H|].
      cbn [run] in H.
      destruct tryExactOutput; [|simpl in H; discriminate H].
      rewrite run_bind in H.
      destruct (run h (tryExactOutputSwap _ _ _ _ _ _ _) w10)
        as [[[receipt|e'] w11] t11] eqn:E11;
        [|apply tryExactOutputSwap_error in E11; subst e'; simpl in H; discriminate H].
      rewrite run_bind in H.
      destruct (run h (logBalances signer tokenIn tokenOut) w11)
        as [[[finalBalances|e'] w12] t12] eqn:E12;
        [simpl in H; discriminate H
        |apply logBalances_error in E12; subst e'; simpl in H; discriminate H].
    + simpl in H. inversion H; subst; clear H.
      exists tokenIn, tokenOut, amountIn, r, w4, w5, (t1 ++ t2 ++ t3 ++ t4)%list, t5, t6.
      split; [|split; assumption].
      rewrite <- !app_assoc. reflexivity.
  - vm_compute. repeat split; try reflexivity.
    do 12 right. left. reflexivity.
Qed.

(** * Further properties of the script *)

(** ** Counting the transactions of a program *)

Lemma within_mono {A : Type} sel (n m : nat) (p : prog A) :
  (n <= m)%nat -> within sel n p -> within sel m p.
Proof.
  revert n m. induction p as [a|e|T c k IH|msg e k IH]; intros n m Hle; simpl; auto.
  - destruct (selects sel T c).
    + destruct n as [|n']; [contradiction|].
      destruct m as [|m']; [lia|]. intros H r. apply (IH r n' m'); [lia|apply H].
    + intros H r. apply (IH r n m Hle), H.
  - apply IH, Hle.
Qed.

Lemma within_any {A : Type} sel (n : nat) (p : prog A) :
  within anyTransaction n p -> within sel n p.
Proof.
  revert n. induction p as [a|e|T c k IH|msg e k IH]; intros n; simpl; auto.
  destruct c; simpl; auto.
  destruct (sel tx).
  - destruct n as [|n']; auto.
  - destruct n as [|n']; [contradiction|]. intros H r.
    apply within_mono with (n := n'); [lia|]. apply IH, H.
Qed.

Lemma within_bind {A B : Type} sel (n m k : nat) (p : prog A) (f : A -> prog B) :
  within sel n p -> (forall a, within sel m (f a)) -> (n + m <= k)%nat ->
  within sel k (bind p f).
Proof.
  revert n k. induction p as [a|e|T c kk IH|msg e kk IH]; intros n k Hp Hf Hle;
    simpl in *; auto.
  - apply within_mono with (n := m); [lia|apply Hf].
  - destruct (selects sel T c).
    + destruct n as [|n']; [contradiction|].
      destruct k as [|k']; [lia|]. intros r. apply (IH r n' k'); auto. lia.
    + intros r. apply (IH r n k); auto.
  - apply (IH n k); auto.
Qed.

Lemma within_try_catch {A : Type} sel (n m k : nat) (p : prog A) (g : error -> prog A) :
  within sel n p -> (forall e, within sel m (g e)) -> (n + m <= k)%nat ->
  within sel k (try_catch p g).
Proof.
  revert n k. induction p as [a|e|T c kk IH|msg e kk IH]; intros n k Hp Hg Hle;
    simpl in *; auto.
  - apply within_mono with (n := m); [lia|apply Hg].
  - destruct (selects sel T c).
    + destruct n as [|n']; [contradiction|].
      destruct k as [|k']; [lia|]. intros r. apply (IH r n' k'); auto. lia.
    + intros r. apply (IH r n k); auto.
  - apply (IH n k); auto.
Qed.

Lemma within_run {W A : Type} sel (n : nat) (h : chain W) (p : prog A) (w : W) :
  within sel n p ->
  (List.length (filter sel (sent (snd (run h p w)))) <= n)%nat.
Proof.
  revert n w. induction p as [a|e|T c k IH|msg e k IH]; intros n w Hp; simpl in *.
  - lia.
  - lia.
  - destruct (h T c w) as [r w1].
    specialize (IH r).
    destruct (run h (k r) w1) as [[o w2] t] eqn:E. simpl.
    unfold sent in *. simpl.
    destruct c; simpl in *;
      try (specialize (IH n w1 (Hp r)); rewrite E in IH; simpl in IH; exact IH).
    destruct (sel tx); simpl.
    + destruct n as [|n']; [contradiction|].
      specialize (IH n' w1 (Hp r)). rewrite E in IH. simpl in IH. lia.
    + specialize (IH n w1 (Hp r)). rewrite E in IH. simpl in IH. exact IH.
  - specialize (IH n w Hp). destruct (run h k w) as [[o w2] t]. simpl in *. exact IH.
Qed.

Ltac within_crush :=
  repeat (simpl;
          match goal with
          | |- True => exact I
          | |- forall _, _ => intro
          | |- context [match ?r with Resolved _ => _ | Rejected _ => _ end] =>
              is_var r; destruct r
          | |- context [if ?b then _ else _] => destruct b
          end).

Lemma fetchTokenInfo_sends_nothing sel a : within sel 0 (fetchTokenInfo a).
Proof. apply within_any. unfold fetchTokenInfo, all3. within_crush. Qed.

Lemma logBalances_sends_nothing sel wallet tokenIn tokenOut :
  within sel 0 (logBalances wallet tokenIn tokenOut).
Proof. apply within_any. unfold logBalances, all3. within_crush. Qed.

Lemma checkBalance_sends_nothing sel tokenInfo wallet :
  within sel 0 (checkBalance tokenInfo wallet).
Proof. apply within_any. unfold checkBalance. within_crush. Qed.

Lemma findPool_sends_nothing sel a b tiers : within sel 0 (findPool a b tiers).
Proof.
  apply within_any. induction tiers as [|fee rest IH]; simpl; auto.
  within_crush. exact IH.
Qed.

Lemma poolDetails_sends_nothing sel tokenIn pool : within sel 0 (poolDetails tokenIn pool).
Proof. apply within_any. unfold poolDetails, all5. within_crush. Qed.

Lemma getPoolInfo_sends_nothing sel tokenIn tokenOut :
  within sel 0 (getPoolInfo tokenIn tokenOut).
Proof.
  unfold getPoolInfo.
  apply within_try_catch with (n := 0%nat) (m := 0%nat); [|intros e; simpl; exact I|lia].
  apply within_bind with (n := 0%nat) (m := 0%nat); [apply findPool_sends_nothing| |lia].
  intros forward.
  apply within_bind with (n := 0%nat) (m := 0%nat); [| |lia].
  - destruct forward; [simpl; exact I|apply findPool_sends_nothing].
  - intros [[pool usedFee]|]; [|simpl; exact I].
    destruct (pool =? ZeroAddress)%string; [simpl; exact I|apply poolDetails_sends_nothing].
Qed.

Lemma getQuote_sends_nothing sel params tokenOut : within sel 0 (getQuote params tokenOut).
Proof. apply within_any. unfold getQuote. within_crush. Qed.

Lemma diagnose_sends_nothing sel params : within sel 0 (diagnose params).
Proof. apply within_any. unfold diagnose. within_crush. Qed.

Lemma settle_sends_nothing {T : Type} sel (r : reply T) : within sel 0 (settle r).
Proof. destruct r; simpl; exact I. Qed.

Lemma bigint_sends_nothing {A : Type} sel (v : option A) : within sel 0 (bigint v).
Proof. destruct v; simpl; exact I. Qed.

Lemma approveToken_sends_one tokenInfo amount wallet :
  within anyTransaction 1 (approveToken tokenInfo amount wallet).
Proof. unfold approveToken, checkBalance. within_crush. Qed.

Lemma approveToken_sends_no_swap sel tokenInfo amount wallet :
  (forall spender value gas,
     sel {| to := address tokenInfo; data := Approve spender value; gasLimit := gas |}
     = false) ->
  within sel 0 (approveToken tokenInfo amount wallet).
Proof.
  intros Hsel. unfold approveToken, checkBalance. simpl. intros [b|m]; simpl; auto.
  destruct (b <? amount); simpl; auto. intros [a|m]; simpl; auto.
  destruct (a >=? amount); simpl; auto. rewrite Hsel. within_crush.
Qed.

Lemma submitSwap_sends_one params gas : within anyTransaction 1 (submitSwap params gas).
Proof. unfold submitSwap. within_crush. Qed.

Lemma executeSwap_sends_two params tokenIn tokenOut :
  within anyTransaction 2 (executeSwap params tokenIn tokenOut).
Proof.
  unfold executeSwap.
  apply within_try_catch with (n := 2%nat) (m := 0%nat); [| |lia].
  - apply within_try_catch with (n := 1%nat) (m := 1%nat); [| |lia].
    + apply within_bind with (n := 0%nat) (m := 1%nat); [unfold await; within_crush| |lia].
      intros g. apply submitSwap_sends_one.
    + intros e. cbn [within]. apply submitSwap_sends_one.
  - intros e. cbn [within].
    apply within_bind with (n := 0%nat) (m := 0%nat); [|intros u; simpl; exact I|lia].
    destruct (revertedWithoutReason e); [apply diagnose_sends_nothing|simpl; exact I].
Qed.

Lemma executeSwap_sends_only_swaps sel params tokenIn tokenOut :
  (forall gas, sel {| to := SWAP_ROUTER_CONTRACT_ADDRESS;
                      data := ExactInputSingle params; gasLimit := gas |} = false) ->
  within sel 0 (executeSwap params tokenIn tokenOut).
Proof.
  intros Hsel. unfold executeSwap.
  assert (Hs : forall gas, within sel 0 (submitSwap params gas)).
  { intros gas. unfold submitSwap. simpl. rewrite Hsel. within_crush. }
  apply within_try_catch with (n := 0%nat) (m := 0%nat); [| |lia].
  - apply within_try_catch with (n := 0%nat) (m := 0%nat); [| |lia].
    + apply within_bind with (n := 0%nat) (m := 0%nat); [unfold await; within_crush|intros g; apply Hs|lia].
    + intros e. cbn [within]. apply Hs.
  - intros e. cbn [within].
    apply within_bind with (n := 0%nat) (m := 0%nat); [|intros u; simpl; exact I|lia].
    destruct (revertedWithoutReason e); [apply diagnose_sends_nothing|simpl; exact I].
Qed.

Lemma sends_nothing {W A : Type} (h : chain W) (p : prog A) (w : W) :
  within anyTransaction 0 p -> sent (snd (run h p w)) = [].
Proof.
  intros Hp. pose proof (within_run anyTransaction 0 h p w Hp) as H.
  destruct (sent (snd (run h p w))) as [|tx l]; [reflexivity|]. simpl in H. lia.
Qed.

(** One awaited call of a run, or one test, at a time. *)
Ltac run_step :=
  match goal with
  | |- context [?h ?T ?c ?w] =>
      match type of h with chain _ => idtac end;
      let v := fresh "v" in
      let m := fresh "m" in
      let w' := fresh "w" in
      destruct (h T c w) as [[v|m] w'] eqn:?; simpl
  | |- context [if ?b then _ else _] => destruct b eqn:?; simpl
  end.

(** The read-only functions never hand a transaction to the signer: on every
    chain, the traces of [fetchTokenInfo], [logBalances], [checkBalance],
    [getPoolInfo], [getQuote] and of the diagnostics of [executeSwap] contain
    no [sendTransaction]. *)
Theorem readers_send_nothing (W : Type) (h : chain W) (w : W) :
  (forall a, sent (snd (run h (fetchTokenInfo a) w)) = [])
  /\ (forall wallet tokenIn tokenOut,
        sent (snd (run h (logBalances wallet tokenIn tokenOut) w)) = [])
  /\ (forall tokenInfo wallet, sent (snd (run h (checkBalance tokenInfo wallet) w)) = [])
  /\ (forall tokenIn tokenOut, sent (snd (run h (getPoolInfo tokenIn tokenOut) w)) = [])
  /\ (forall params tokenOut, sent (snd (run h (getQuote params tokenOut) w)) = [])
  /\ (forall params, sent (snd (run h (diagnose params) w)) = []).
Proof.
  repeat split; intros; apply sends_nothing.
  - apply fetchTokenInfo_sends_nothing.
  - apply logBalances_sends_nothing.
  - apply checkBalance_sends_nothing.
  - apply getPoolInfo_sends_nothing.
  - apply getQuote_sends_nothing.
  - apply diagnose_sends_nothing.
Qed.

(** The approver sends at most one transaction, and it can only be
    [approve(router, amount)] to the token with a gas limit of 100000: on
    every chain the transactions of its trace are none or exactly that one. *)
Theorem approveToken_transactions
  (W : Type) (h : chain W) (w : W) tokenInfo amount wallet :
  let t := snd (run h (approveToken tokenInfo amount wallet) w) in
  sent t = []
  \/ sent t = [{| to := address tokenInfo;
                  data := Approve SWAP_ROUTER_CONTRACT_ADDRESS amount;
                  gasLimit := 100000 |}].
Proof.
  unfold approveToken, checkBalance, sent. simpl.
  repeat run_step; auto.
Qed.

(** Whatever goes wrong in the approver, the error that leaves it is the
    generic one, and the last thing it did was to log the cause: a failed
    balance check, a balance below the amount, or a rejection of one of its
    own calls (allowance read, submission, confirmation). *)
Theorem approveToken_failure_causes
  (W : Type) (h : chain W) (w w' : W) tokenInfo amount wallet e t :
  run h (approveToken tokenInfo amount wallet) w = (inr e, w', t) ->
  e = TokenApprovalFailed
  /\ exists cause,
       lastEvent t = Some (Logged "Error during token approval" cause)
       /\ (cause = CheckBalanceFailed (symbol tokenInfo)
           \/ (exists balance, cause = InsufficientBalance (symbol tokenInfo) balance amount
                               /\ balance < amount)
           \/ exists m, cause = Rejection m).
Proof.
  unfold approveToken, checkBalance. simpl.
  repeat run_step; intros H; inversion H; subst; clear H;
    (split; [reflexivity|]); eexists; (split; [reflexivity|]).
  all: try (left; reflexivity).
  all: try (right; right; eexists; reflexivity).
  right. left. eexists. split; [reflexivity|]. apply Z.ltb_lt. assumption.
Qed.

Lemma approveToken_failure_causes_witness :
  TokenApprovalFailed = TokenApprovalFailed
  /\ exists cause,
       lastEvent
         [Called (Token_balanceOf TOKEN_IN_ADDRESS wallet0) (Resolved 0);
          Logged "Error during token approval" (InsufficientBalance "WETH" 0 1)]
       = Some (Logged "Error during token approval" cause)
       /\ (cause = CheckBalanceFailed (symbol tokenWETH)
           \/ (exists balance, cause = InsufficientBalance (symbol tokenWETH) balance 1
                               /\ balance < 1)
           \/ exists m, cause = Rejection m).
Proof.
  exact (approveToken_failure_causes World (ledger noPools) (world0 0 0) (world0 0 0)
           tokenWETH 1 wallet0 TokenApprovalFailed
           [Called (Token_balanceOf TOKEN_IN_ADDRESS wallet0) (Resolved 0);
            Logged "Error during token approval" (InsufficientBalance "WETH" 0 1)]
           eq_refl).
Defined.

(** ** The swap executor *)

(** When gas estimation, submission and confirmation all succeed,
    [executeSwap] submits the swap once, with a gas limit of the estimate plus
    30%, truncated. *)
Theorem executeSwap_estimated_gas
  (W : Type) (h : chain W) (w w1 w2 w3 : W) params tokenIn tokenOut
  (gasEstimate : Z) (hash receipt : string) :
  h _ (Router_estimateGas params) w = (Resolved gasEstimate, w1) ->
  h _ (Signer_sendTransaction
         {| to := SWAP_ROUTER_CONTRACT_ADDRESS; data := ExactInputSingle params;
            gasLimit := Z.quot (gasEstimate * 130) 100 |}) w1
  = (Resolved hash, w2) ->
  h _ (Tx_wait hash) w2 = (Resolved receipt, w3) ->
  run h (executeSwap params tokenIn tokenOut) w
  = (inl receipt, w3,
     [Called (Router_estimateGas params) (Resolved gasEstimate);
      Called (Signer_sendTransaction
                {| to := SWAP_ROUTER_CONTRACT_ADDRESS; data := ExactInputSingle params;
                   gasLimit := Z.quot (gasEstimate * 130) 100 |}) (Resolved hash);
      Called (Tx_wait hash) (Resolved receipt)]).
Proof.
  intros He Hs Hw. unfold executeSwap, submitSwap. simpl.
  rewrite He. simpl. rewrite Hs. simpl. rewrite Hw. reflexivity.
Qed.

Lemma executeSwap_estimated_gas_witness :
  run (ledger onePool) (executeSwap someSwap tokenWETH tokenUSDC) (world0 (10 ^ 20) (10 ^ 19))
  = (inl "0x7a", apply {| to := SWAP_ROUTER_CONTRACT_ADDRESS;
                          data := ExactInputSingle someSwap; gasLimit := 195000 |}
                   (world0 (10 ^ 20) (10 ^ 19)),
     [Called (Router_estimateGas someSwap) (Resolved 150000);
      Called (Signer_sendTransaction
                {| to := SWAP_ROUTER_CONTRACT_ADDRESS; data := ExactInputSingle someSwap;
                   gasLimit := Z.quot (150000 * 130) 100 |}) (Resolved "0x7a");
      Called (Tx_wait "0x7a") (Resolved "0x7a")]).
Proof.
  exact (executeSwap_estimated_gas World (ledger onePool) _ _ _ _ someSwap tokenWETH
           tokenUSDC 150000 "0x7a" "0x7a" eq_refl eq_refl eq_refl).
Defined.

(** The inner [try] of [executeSwap] covers the submission and the
    confirmation too: when the estimate and the submission succeed but the
    confirmation is rejected, the same swap is submitted a second time, with
    the fixed gas limit of 1000000; if that one confirms, [executeSwap]
    returns its receipt. *)
Theorem executeSwap_resubmits
  (W : Type) (h : chain W) (w w1 w2 w3 w4 w5 : W) params tokenIn tokenOut
  (gasEstimate : Z) (hash hash' receipt reason : string) :
  h _ (Router_estimateGas params) w = (Resolved gasEstimate, w1) ->
  h _ (Signer_sendTransaction
         {| to := SWAP_ROUTER_CONTRACT_ADDRESS; data := ExactInputSingle params;
            gasLimit := Z.quot (gasEstimate * 130) 100 |}) w1
  = (Resolved hash, w2) ->
  h _ (Tx_wait hash) w2 = (Rejected reason, w3) ->
  h _ (Signer_sendTransaction
         {| to := SWAP_ROUTER_CONTRACT_ADDRESS; data := ExactInputSingle params;
            gasLimit := 1000000 |}) w3
  = (Resolved hash', w4) ->
  h _ (Tx_wait hash') w4 = (Resolved receipt, w5) ->
  run h (executeSwap params tokenIn tokenOut) w
  = (inl receipt, w5,
     [Called (Router_estimateGas params) (Resolved gasEstimate);
      Called (Signer_sendTransaction
                {| to := SWAP_ROUTER_CONTRACT_ADDRESS; data := ExactInputSingle params;
                   gasLimit := Z.quot (gasEstimate * 130) 100 |}) (Resolved hash);
      Called (Tx_wait hash) (Rejected reason);
      Logged "Gas estimation failed, using fixed gas limit" (Rejection reason);
      Called (Signer_sendTransaction
                {| to := SWAP_ROUTER_CONTRACT_ADDRESS; data := ExactInputSingle params;
                   gasLimit := 1000000 |}) (Resolved hash');
      Called (Tx_wait hash') (Resolved receipt)]).
Proof.
  intros He Hs Hw Hs' Hw'. unfold executeSwap, submitSwap. simpl.
  rewrite He. simpl. rewrite Hs. simpl. rewrite Hw. simpl.
  rewrite Hs'. simpl. rewrite Hw'. reflexivity.
Qed.

Lemma executeSwap_resubmits_witness :
  run flaky (executeSwap someSwap tokenWETH tokenUSDC) 0%nat
  = (inl "0x7a", 2%nat,
     [Called (Router_estimateGas someSwap) (Resolved 100000);
      Called (Signer_sendTransaction
                {| to := SWAP_ROUTER_CONTRACT_ADDRESS; data := ExactInputSingle someSwap;
                   gasLimit := Z.quot (100000 * 130) 100 |}) (Resolved "0x7a");
      Called (Tx_wait "0x7a") (Rejected "transaction execution reverted");
      Logged "Gas estimation failed, using fixed gas limit"
        (Rejection "transaction execution reverted");
      Called (Signer_sendTransaction
                {| to := SWAP_ROUTER_CONTRACT_ADDRESS; data := ExactInputSingle someSwap;
                   gasLimit := 1000000 |}) (Resolved "0x7a");
      Called (Tx_wait "0x7a") (Resolved "0x7a")]).
Proof.
  exact (executeSwap_resubmits nat flaky 0%nat 0%nat 0%nat 1%nat 1%nat 2%nat someSwap
           tokenWETH tokenUSDC 100000 "0x7a" "0x7a" "0x7a"
           "transaction execution reverted" eq_refl eq_refl eq_refl eq_refl eq_refl).
Defined.

(** On every chain, [executeSwap] hands at most two transactions to the
    signer, each of them the exact-input swap of its parameters addressed to
    the router, and when it fails it fails with the swap error of line 575,
    whatever the diagnostics did. *)
Theorem executeSwap_outcome
  (W : Type) (h : chain W) (w : W) params tokenIn tokenOut :
  let '(o, _, t) := run h (executeSwap params tokenIn tokenOut) w in
  (List.length (sent t) <= 2)%nat
  /\ Forall (fun tx => to tx = SWAP_ROUTER_CONTRACT_ADDRESS
                       /\ data tx = ExactInputSingle params) (sent t)
  /\ (forall e, o = inr e -> e = SwapTransactionFailed).
Proof.
  unfold executeSwap, submitSwap, diagnose, sent. simpl.
  repeat run_step.
  all: repeat split; simpl; try lia; repeat constructor; auto.
  all: intros e He; inversion He; reflexivity.
Qed.

(** ** The whole pipeline *)

Lemma within_await_read {T : Type} sel (c : call T) :
  selects sel T c = false -> within sel 0 (await c).
Proof. intros Hc. unfold await. simpl. rewrite Hc. intros [v|m]; simpl; exact I. Qed.

Lemma within_tryExactOutputSwap sel (na ns : nat) parseUnits signer tolerance poolFee
  desired tokenIn tokenOut :
  (forall tokenInfo amount wallet, within sel na (approveToken tokenInfo amount wallet)) ->
  (forall p gas,
     (if sel {| to := SWAP_ROUTER_CONTRACT_ADDRESS; data := ExactOutputSingle p;
                gasLimit := gas |} then 1 else 0)%nat = ns) ->
  within sel (na + ns)
    (tryExactOutputSwap parseUnits signer tolerance poolFee desired tokenIn tokenOut).
Proof.
  intros Ha Hs. unfold tryExactOutputSwap.
  apply within_try_catch with (n := (na + ns)%nat) (m := 0%nat);
    [|intros e; simpl; exact I|lia].
  apply within_bind with (n := 0%nat) (m := (na + ns)%nat);
    [apply settle_sends_nothing| |lia]. intros amountOut.
  apply within_bind with (n := 0%nat) (m := (na + ns)%nat);
    [apply within_await_read; reflexivity| |lia]. intros amountInMaximum.
  apply within_bind with (n := 0%nat) (m := (na + ns)%nat);
    [apply bigint_sends_nothing| |lia]. intros adjusted.
  apply within_bind with (n := 0%nat) (m := (na + ns)%nat);
    [apply within_await_read; reflexivity| |lia]. intros now.
  apply within_bind with (n := na) (m := ns); [apply Ha| |lia]. intros _.
  simpl. specialize (Hs {| SwapOut.tokenIn := address tokenIn;
                           SwapOut.tokenOut := address tokenOut;
                           SwapOut.fee := poolFee;
                           SwapOut.recipient := signer;
                           SwapOut.deadline := deadlineFrom now;
                           SwapOut.amountOut := amountOut;
                           SwapOut.amountInMaximum := adjusted;
                           SwapOut.sqrtPriceLimitX96 := 0 |} 1000000).
  destruct (sel _); subst ns; within_crush.
Qed.

Lemma within_main sel (na nx ns : nat) parseUnits formatUnitsNumber signer tolerance
  (tryExactOutput : bool) swapAmount :
  (forall tokenInfo amount wallet, within sel na (approveToken tokenInfo amount wallet)) ->
  (forall params tokenIn tokenOut, within sel nx (executeSwap params tokenIn tokenOut)) ->
  (forall p gas,
     (if sel {| to := SWAP_ROUTER_CONTRACT_ADDRESS; data := ExactOutputSingle p;
                gasLimit := gas |} then 1 else 0)%nat = ns) ->
  within sel (na + (nx + (if tryExactOutput then na + ns else 0)))
    (main parseUnits formatUnitsNumber signer tolerance tryExactOutput swapAmount).
Proof.
  intros Ha Hx Hs. unfold main.
  set (rest := (nx + (if tryExactOutput then na + ns else 0))%nat).
  apply within_try_catch with (n := (na + rest)%nat) (m := 0%nat);
    [|intros e; simpl; exact I|lia].
  apply within_bind with (n := 0%nat) (m := (na + rest)%nat);
    [apply fetchTokenInfo_sends_nothing| |lia]. intros tokenIn.
  apply within_bind with (n := 0%nat) (m := (na + rest)%nat);
    [apply fetchTokenInfo_sends_nothing| |lia]. intros tokenOut.
  apply within_bind with (n := 0%nat) (m := (na + rest)%nat);
    [apply logBalances_sends_nothing| |lia]. intros initialBalances.
  apply within_bind with (n := 0%nat) (m := (na + rest)%nat);
    [apply settle_sends_nothing| |lia]. intros amountIn.
  apply within_bind with (n := na) (m := rest); [apply Ha| |lia]. intros _.
  apply within_bind with (n := 0%nat) (m := rest);
    [apply getPoolInfo_sends_nothing| |lia]. intros pool.
  apply within_bind with (n := 0%nat) (m := rest);
    [apply getQuote_sends_nothing| |lia]. intros quoted.
  apply within_bind with (n := 0%nat) (m := rest);
    [apply bigint_sends_nothing| |lia]. intros minimum.
  apply within_bind with (n := 0%nat) (m := rest);
    [apply within_await_read; reflexivity| |lia]. intros now.
  unfold rest.
  apply within_try_catch
    with (n := nx) (m := (if tryExactOutput then na + ns else 0)%nat); [| |lia].
  - apply within_bind with (n := nx) (m := 0%nat); [apply Hx| |lia]. intros receipt.
    apply within_bind with (n := 0%nat) (m := 0%nat);
      [apply logBalances_sends_nothing|intros b; simpl; exact I|lia].
  - intros swapError. cbn [within]. destruct tryExactOutput; [|simpl; exact I].
    apply within_bind with (n := (na + ns)%nat) (m := 0%nat);
      [apply within_tryExactOutputSwap; assumption| |lia]. intros receipt.
    apply within_bind with (n := 0%nat) (m := 0%nat);
      [apply logBalances_sends_nothing|intros b; simpl; exact I|lia].
Qed.

(** On every chain and for every configuration, one run of [main] submits
    at most two approvals, at most two exact-input swaps, at most one
    exact-output swap and no deposit: at most five transactions in all.  With
    the exact-output fallback switched off it submits at most one approval
    and no exact-output swap. *)
Theorem main_transaction_budget
  (W : Type) (h : chain W) (w : W) parseUnits formatUnitsNumber signer tolerance
  swapAmount :
  (forall tryExactOutput,
     let t := snd (run h (main parseUnits formatUnitsNumber signer tolerance
                            tryExactOutput swapAmount) w) in
     (approvals t <= 2)%nat
     /\ (List.length (filter isExactInput (sent t)) <= 2)%nat
     /\ (List.length (filter isExactOutput (sent t)) <= 1)%nat
     /\ (List.length (filter isDeposit (sent t)) <= 0)%nat
     /\ (List.length (sent t) <= 5)%nat)
  /\ (let t := snd (run h (main parseUnits formatUnitsNumber signer tolerance
                             false swapAmount) w) in
      (approvals t <= 1)%nat
      /\ (List.length (filter isExactOutput (sent t)) <= 0)%nat).
Proof.
  assert (Hany : forall l : list transaction, filter anyTransaction l = l).
  { induction l as [|x l IH]; simpl; [reflexivity|]. rewrite IH. reflexivity. }
  assert (Happ : forall sel tokenInfo amount wallet,
             within sel 1 (approveToken tokenInfo amount wallet)).
  { intros. apply within_any, approveToken_sends_one. }
  assert (Hexe : forall sel params tokenIn tokenOut,
             within sel 2 (executeSwap params tokenIn tokenOut)).
  { intros. apply within_any, executeSwap_sends_two. }
  split.
  - intros tryExactOutput t. unfold approvals. repeat split.
    + eapply Nat.le_trans; [apply within_run|].
      * apply (within_main isApproval 1 0 0).
        -- apply Happ.
        -- intros. apply executeSwap_sends_only_swaps. reflexivity.
        -- reflexivity.
      * destruct tryExactOutput; simpl; lia.
    + eapply Nat.le_trans; [apply within_run|].
      * apply (within_main isExactInput 0 2 0).
        -- intros. apply approveToken_sends_no_swap. reflexivity.
        -- apply Hexe.
        -- reflexivity.
      * destruct tryExactOutput; simpl; lia.
    + eapply Nat.le_trans; [apply within_run|].
      * apply (within_main isExactOutput 0 0 1).
        -- intros. apply approveToken_sends_no_swap. reflexivity.
        -- intros. apply executeSwap_sends_only_swaps. reflexivity.
        -- reflexivity.
      * destruct tryExactOutput; simpl; lia.
    + eapply Nat.le_trans; [apply within_run|].
      * apply (within_main isDeposit 0 0 0).
        -- intros. apply approveToken_sends_no_swap. reflexivity.
        -- intros. apply executeSwap_sends_only_swaps. reflexivity.
        -- reflexivity.
      * destruct tryExactOutput; simpl; lia.
    + rewrite <- (Hany (sent t)).
      eapply Nat.le_trans; [apply within_run|].
      * apply (within_main anyTransaction 1 2 1).
        -- apply Happ.
        -- apply Hexe.
        -- reflexivity.
      * destruct tryExactOutput; simpl; lia.
  - intros t. unfold approvals. split.
    + eapply Nat.le_trans; [apply within_run|].
      * apply (within_main isApproval 1 0 0).
        -- apply Happ.
        -- intros. apply executeSwap_sends_only_swaps. reflexivity.
        -- reflexivity.
      * simpl; lia.
    + eapply Nat.le_trans; [apply within_run|].
      * apply (within_main isExactOutput 0 0 1).
        -- intros. apply approveToken_sends_no_swap. reflexivity.
        -- intros. apply executeSwap_sends_only_swaps. reflexivity.
        -- reflexivity.
      * simpl; lia.
Qed.

Lemma findPool_error {W : Type} (h : chain W) a b tiers (w w' : W) e t :
  run h (findPool a b tiers) w = (inr e, w', t) -> exists m, e = Rejection m.
Proof.
  revert w w' t. induction tiers as [|fee rest IH]; intros w w' t; simpl.
  - intros H. discriminate H.
  - destruct (h _ (Factory_getPool a b fee) w) as [[p|m] w1]; simpl.
    + destruct (negb (p =? ZeroAddress)%string); simpl.
      * intros H. discriminate H.
      * destruct (run h (findPool a b rest) w1) as [[o w2] t2] eqn:E.
        intros H. inversion H; subst. apply (IH _ _ _ E).
    + intros H. inversion H. eauto.
Qed.

Lemma getPoolInfo_error {W : Type} (h : chain W) tokenIn tokenOut (w w' : W) e t :
  run h (getPoolInfo tokenIn tokenOut) w = (inr e, w', t) ->
  e = NoPoolExists (symbol tokenIn) (symbol tokenOut) \/ exists m, e = Rejection m.
Proof.
  unfold getPoolInfo. rewrite run_try_catch.
  destruct (run h (bind (findPool _ _ _) _) w) as [[[a|e0] w1] t1] eqn:E;
    simpl; intros H; inversion H; subst; clear H.
  rewrite run_bind in E.
  destruct (run h (findPool (address tokenIn) (address tokenOut) feeTiers) w)
    as [[[forward|e1] w2] t2] eqn:E1.
  - rewrite run_bind in E.
    destruct (run h (match forward with
                     | Some hit => Ret (Some hit)
                     | None => findPool (address tokenOut) (address tokenIn) feeTiers
                     end) w2) as [[[found|e2] w3] t3] eqn:E2.
    + destruct found as [[pool usedFee]|].
      * destruct (pool =? ZeroAddress)%string.
        -- simpl in E. inversion E. left. reflexivity.
        -- destruct (run h (poolDetails tokenIn pool) w3) as [[o4 w4] t4] eqn:E4.
           destruct (poolDetails_run W h tokenIn pool w3 _ _ _ E4) as (_ & _ & He).
           inversion E; subst. right. apply He. reflexivity.
      * simpl in E. inversion E. left. reflexivity.
    + inversion E; subst. right. destruct forward; [discriminate E2|].
      apply (findPool_error _ _ _ _ _ _ _ _ E2).
  - inversion E; subst. right. apply (findPool_error _ _ _ _ _ _ _ _ E1).
Qed.

(** When [main] fails, on any chain, the error that leaves it is one of: a
    token descriptor that could not be fetched, balances that could not be
    read, a rejection (from [parseUnits], a lookup, a pool read or the
    clock), the generic approval error, the no-pool error, the quote error,
    the RangeError of [BigInt], the exact-output error, or the
    fallback-disabled error.  It is never the swap error of [executeSwap] nor
    the insufficient-balance error; with the fallback on it is never the
    fallback-disabled error, and with it off never the exact-output error. *)
Theorem main_error_kinds
  (W : Type) (h : chain W) (w : W) parseUnits formatUnitsNumber signer tolerance
  (tryExactOutput : bool) swapAmount e :
  fst (fst (run h (main parseUnits formatUnitsNumber signer tolerance tryExactOutput
                     swapAmount) w))
  = inr e ->
  e = TokenInfoFailed TOKEN_IN_ADDRESS \/ e = TokenInfoFailed TOKEN_OUT_ADDRESS
  \/ e = BalancesFailed \/ (exists m, e = Rejection m) \/ e = TokenApprovalFailed
  \/ (exists symbolIn symbolOut, e = NoPoolExists symbolIn symbolOut)
  \/ e = QuoteFailed \/ e = RangeError
  \/ (tryExactOutput = true /\ e = ExactOutputSwapFailed)
  \/ (tryExactOutput = false /\ e = SwapFailedNoFallback).
Proof.
  destruct (run h (main parseUnits formatUnitsNumber signer tolerance tryExactOutput
                     swapAmount) w) as [[o w'] t] eqn:H.
  simpl. intros ->.
  unfold main in H. rewrite run_try_catch in H.
  rewrite run_bind in H.
  destruct (run h (fetchTokenInfo TOKEN_IN_ADDRESS) w) as [[[tokenIn|e1] w1] t1] eqn:E1;
    [|apply fetchTokenInfo_error in E1; subst e1; simpl in H; inversion H; auto].
  rewrite run_bind in H.
  destruct (run h (fetchTokenInfo TOKEN_OUT_ADDRESS) w1) as [[[tokenOut|e2] w2] t2] eqn:E2;
    [|apply fetchTokenInfo_error in E2; subst e2; simpl in H; inversion H; auto].
  rewrite run_bind in H.
  destruct (run h (logBalances signer tokenIn tokenOut) w2)
    as [[[initialBalances|e3] w3] t3] eqn:E3;
    [|apply logBalances_error in E3; subst e3; simpl in H; inversion H; auto].
  rewrite run_bind in H.
  destruct (run h (settle (parseUnits swapAmount (decimals tokenIn))) w3)
    as [[[amountIn|e4] w4] t4] eqn:E4;
    [|apply settle_error in E4; destruct E4 as [m ->]; simpl in H; inversion H;
      do 3 right; left; eauto].
  rewrite run_bind in H.
  destruct (run h (approveToken tokenIn amountIn signer) w4)
    as [[[r|e5] w5] t5] eqn:E5;
    [|apply approveToken_error in E5; subst e5; simpl in H; inversion H; auto 10].
  rewrite run_bind in H.
  destruct (run h (getPoolInfo tokenIn tokenOut) w5) as [[[pool|e6] w6] t6] eqn:E6;
    [|apply getPoolInfo_error in E6; simpl in H; inversion H; subst;
      destruct E6 as [->|[m ->]];
      [do 5 right; left; eauto|do 3 right; left; eauto]].
  rewrite run_bind in H.
  destruct (run h (getQuote _ tokenOut) w6) as [[[quoted|e7] w7] t7] eqn:E7;
    [|apply getQuote_error in E7; subst e7; simpl in H; inversion H; auto 10].
  rewrite run_bind in H.
  destruct (run h (bigint (amountOutMinimum tolerance quoted)) w7)
    as [[[minimum|e8] w8] t8] eqn:E8;
    [|apply bigint_error in E8; subst e8; simpl in H; inversion H; auto 10].
  rewrite run_bind in H.
  destruct (run h (await Date_now) w8) as [[[now|e9] w9] t9] eqn:E9;
    [|apply await_error in E9; destruct E9 as [m ->]; simpl in H; inversion H;
      do 3 right; left; eauto].
  rewrite run_try_catch in H.
  destruct (run h (bind (executeSwap _ tokenIn tokenOut) _) w9)
    as [[[res|e10] w10] t10] eqn:E10; [simpl in H; discriminate H|].
  cbn [run] in H.
  destruct tryExactOutput; [|simpl in H; inversion H; auto 12].
  rewrite run_bind in H.
  destruct (run h (tryExactOutputSwap _ _ _ _ _ _ _) w10)
    as [[[receipt|e11] w11] t11] eqn:E11;
    [|apply tryExactOutputSwap_error in E11; subst e11; simpl in H; inversion H;
      auto 12].
  rewrite run_bind in H.
  destruct (run h (logBalances signer tokenIn tokenOut) w11)
    as [[[finalBalances|e12] w12] t12] eqn:E12;
    [simpl in H; discriminate H
    |apply logBalances_error in E12; subst e12; simpl in H; inversion H; auto].
Qed.

Lemma main_error_kinds_witness :
  fst (fst (run (ledger noPools) (script 10%float) (world0 (10 ^ 20) 0)))
  = inr (NoPoolExists "WETH" "USDC")
  /\ (NoPoolExists "WETH" "USDC" = TokenInfoFailed TOKEN_IN_ADDRESS
      \/ NoPoolExists "WETH" "USDC" = TokenInfoFailed TOKEN_OUT_ADDRESS
      \/ NoPoolExists "WETH" "USDC" = BalancesFailed
      \/ (exists m, NoPoolExists "WETH" "USDC" = Rejection m)
      \/ NoPoolExists "WETH" "USDC" = TokenApprovalFailed
      \/ (exists symbolIn symbolOut,
            NoPoolExists "WETH" "USDC" = NoPoolExists symbolIn symbolOut)
      \/ NoPoolExists "WETH" "USDC" = QuoteFailed
      \/ NoPoolExists "WETH" "USDC" = RangeError
      \/ (TRY_EXACT_OUTPUT = true /\ NoPoolExists "WETH" "USDC" = ExactOutputSwapFailed)
      \/ (TRY_EXACT_OUTPUT = false /\ NoPoolExists "WETH" "USDC" = SwapFailedNoFallback)).
Proof.
  split; [vm_compute; reflexivity|].
  apply (main_error_kinds World (ledger noPools) (world0 (10 ^ 20) 0)
           parseWhole formatRounded wallet0 SLIPPAGE_TOLERANCE TRY_EXACT_OUTPUT 10%float).
  vm_compute. reflexivity.
Defined.

(** ** Slippage bounds at the configured tolerance *)

Lemma widening_factor_configured :
  Js.BigInt_floor ((1 + SLIPPAGE_TOLERANCE) * 1000)%float = Some 1050.
Proof. vm_compute. reflexivity. Qed.

(** At the configured 5% tolerance, the maximum input of the exact-output
    fallback is the quoted input times 1050/1000, truncated: never below the
    quote and never above 105% of it. *)
Theorem adjustedAmountInMaximum_configured (amountInMaximum : Z) :
  0 <= amountInMaximum ->
  adjustedAmountInMaximum SLIPPAGE_TOLERANCE amountInMaximum
  = Some (amountInMaximum * 1050 / 1000)
  /\ amountInMaximum <= amountInMaximum * 1050 / 1000
  /\ (amountInMaximum * 1050 / 1000) * 1000 <= amountInMaximum * 1050.
Proof.
  intros Hq. unfold adjustedAmountInMaximum. rewrite widening_factor_configured.
  rewrite Z.quot_div_nonneg by lia. split; [reflexivity|]. split.
  - apply Z.div_le_lower_bound; lia.
  - rewrite Z.mul_comm. apply Z.mul_div_le. lia.
Qed.

Lemma adjustedAmountInMaximum_configured_witness :
  0 <= 1000000
  /\ adjustedAmountInMaximum SLIPPAGE_TOLERANCE 1000000 = Some (1000000 * 1050 / 1000).
Proof.
  split; [lia|].
  exact (proj1 (adjustedAmountInMaximum_configured 1000000 ltac:(lia))).
Defined.

(** At the configured 5% tolerance: a quote of 0 or 1 unit gives a bound of
    1 (at a quote of 0 the bound exceeds the quote); from 2 units on the bound
    is 95% of the quote, truncated, at least 1 and strictly below the quote. *)
Theorem amountOutMinimum_configured_bounds (quotedOut : Z) :
  0 <= quotedOut ->
  exists m,
    amountOutMinimum SLIPPAGE_TOLERANCE quotedOut = Some m
    /\ (quotedOut <= 1 -> m = 1)
    /\ (2 <= quotedOut ->
        m = quotedOut * 950 / 1000 /\ 1 <= m < quotedOut
        /\ quotedOut * 950 < (m + 1) * 1000).
Proof.
  intros Hq. unfold amountOutMinimum. rewrite slippageFactor_configured.
  rewrite Z.quot_div_nonneg by lia. eexists. split; [reflexivity|].
  unfold clampZero. split.
  - intros Hle. assert (Hz : quotedOut * 950 / 1000 = 0).
    { apply Z.div_small. lia. }
    rewrite Hz. reflexivity.
  - intros Hge.
    assert (H1 : 1 <= quotedOut * 950 / 1000) by (apply Z.div_le_lower_bound; lia).
    assert (H2 : quotedOut * 950 / 1000 < quotedOut)
      by (apply Z.div_lt_upper_bound; lia).
    pose proof (Z.mul_succ_div_gt (quotedOut * 950) 1000 ltac:(lia)) as H3.
    destruct (Z.eqb_spec (quotedOut * 950 / 1000) 0) as [E|_]; [lia|].
    repeat split; lia.
Qed.

Lemma amountOutMinimum_configured_bounds_witness :
  0 <= 0 /\ exists m, amountOutMinimum SLIPPAGE_TOLERANCE 0 = Some m /\ m = 1.
Proof.
  split; [lia|].
  destruct (amountOutMinimum_configured_bounds 0 ltac:(lia)) as (m & Hm & Hsmall & _).
  exists m. split; [exact Hm|]. apply Hsmall. lia.
Defined.

Lemma prepared_factor : Js.BigInt_floor (1000 * (1 - Old.slippageTolerance))%float = Some 995.
Proof. vm_compute. reflexivity. Qed.

(** [prepareSwapParams] of the second old script: the bound is 99.5% of the
    quote, truncated, never above the quote, and it is not clamped: it is 0
    for a quote of 0 or 1 unit.  The parameters it builds carry that bound, the
    fee read from the pool and no price limit. *)
Theorem prepareSwapParams_bound (amountOut : Z) :
  0 <= amountOut ->
  Old.prepared_amountOutMinimum amountOut = Some (amountOut * 995 / 1000)
  /\ amountOut * 995 / 1000 <= amountOut
  /\ (amountOut <= 1 -> amountOut * 995 / 1000 = 0)
  /\ (forall (W : Type) (h : chain W) (w : W) pool signer amountIn params,
        fst (fst (run h (prepareSwapParams pool signer amountIn amountOut) w))
        = inl params ->
        SwapIn.amountOutMinimum params = amountOut * 995 / 1000
        /\ SwapIn.sqrtPriceLimitX96 params = 0
        /\ fst (h _ (Pool_fee pool) w) = Resolved (SwapIn.fee params)).
Proof.
  intros Ha.
  assert (E : Old.prepared_amountOutMinimum amountOut = Some (amountOut * 995 / 1000)).
  { unfold Old.prepared_amountOutMinimum. rewrite prepared_factor.
    rewrite Z.quot_div_nonneg by lia. reflexivity. }
  split; [exact E|]. split; [apply Z.div_le_upper_bound; lia|].
  split; [intros Hle; apply Z.div_small; lia|].
  intros W h w pool signer amountIn params.
  unfold prepareSwapParams. rewrite E. simpl.
  destruct (h _ (Pool_fee pool) w) as [[fee|m] w1]; simpl; [|discriminate].
  destruct (h _ Date_now w1) as [[now|m] w2]; simpl; [|discriminate].
  intros H. inversion H; subst. simpl. auto.
Qed.

Lemma prepareSwapParams_bound_witness :
  0 <= 150250000
  /\ Old.prepared_amountOutMinimum 150250000 = Some (150250000 * 995 / 1000).
Proof.
  split; [lia|]. exact (proj1 (prepareSwapParams_bound 150250000 ltac:(lia))).
Defined.

(** ** Wrapping *)

(** When the wallet's ether reads below the amount to wrap, [wrapEthToWeth]
    logs the insufficient-ether error and fails with the generic wrapping
    error; the balance read is its only call, so no deposit is sent. *)
Theorem wrapEthToWeth_insufficient_ether
  (W : Type) (h : chain W) (w w1 : W) parseUnits wallet ethAmount wethAddress
  (ethToWrap eth : Z) :
  parseUnits ethAmount 18 = Resolved ethToWrap ->
  h _ (Provider_getBalance wallet) w = (Resolved eth, w1) ->
  eth < ethToWrap ->
  run h (wrapEthToWeth parseUnits wallet ethAmount wethAddress) w
  = (inr EthWrappingFailed, w1,
     [Called (Provider_getBalance wallet) (Resolved eth);
      Logged "Error wrapping ETH to WETH" (InsufficientEth eth)]).
Proof.
  intros Hp Hb Hlt. unfold wrapEthToWeth. rewrite Hp. simpl. rewrite Hb. simpl.
  apply Z.ltb_lt in Hlt. rewrite Hlt. reflexivity.
Qed.

Lemma wrapEthToWeth_insufficient_ether_witness :
  parseWhole 2%float 18 = Resolved (2 * 10 ^ 18)
  /\ 10 ^ 18 < 2 * 10 ^ 18
  /\ run (ledger noPools) (wrapEthToWeth parseWhole wallet0 2%float TOKEN_IN_ADDRESS)
       (world0 0 0)
     = (inr EthWrappingFailed, world0 0 0,
        [Called (Provider_getBalance wallet0) (Resolved (10 ^ 18));
         Logged "Error wrapping ETH to WETH" (InsufficientEth (10 ^ 18))]).
Proof.
  split; [vm_compute; reflexivity|]. split; [lia|].
  apply (wrapEthToWeth_insufficient_ether World (ledger noPools) (world0 0 0)
           (world0 0 0) parseWhole wallet0 2%float TOKEN_IN_ADDRESS (2 * 10 ^ 18) (10 ^ 18)).
  - vm_compute. reflexivity.
  - reflexivity.
  - lia.
Defined.

(** [wrapEthToWeth] sends at most one transaction, and it can only be the
    deposit of the parsed amount to the wrapped-token address with a gas limit
    of 200000; and it only ever fails with the generic wrapping error. *)
Theorem wrapEthToWeth_transactions
  (W : Type) (h : chain W) (w : W) parseUnits wallet ethAmount wethAddress :
  let '(o, _, t) := run h (wrapEthToWeth parseUnits wallet ethAmount wethAddress) w in
  (sent t = []
   \/ exists ethToWrap,
        parseUnits ethAmount 18 = Resolved ethToWrap
        /\ sent t = [{| to := wethAddress; data := Deposit ethToWrap;
                        gasLimit := 200000 |}])
  /\ (forall e, o = inr e -> e = EthWrappingFailed).
Proof.
  unfold wrapEthToWeth, sent.
  destruct (parseUnits ethAmount 18) as [toWrap|m] eqn:Hp; simpl.
  - repeat run_step; (split; [|intros e He; inversion He; reflexivity]); auto;
      right; exists toWrap; split; reflexivity.
  - split; [left; reflexivity|]. intros e He. inversion He. reflexivity.
Qed.

(** ** Diagnostics and token descriptors *)

(** The diagnostics of [executeSwap] never fail, whatever the chain answers,
    and every quote they ask for is for a tenth of the swap's input amount,
    truncated, on the swap's own pair and fee. *)
Theorem diagnose_never_fails (W : Type) (h : chain W) (w : W) params :
  let '(o, _, t) := run h (diagnose params) w in
  o = inl tt
  /\ Forall (calledWith (fun _ c =>
               match c with
               | Quoter_quoteExactInputSingle q =>
                   q = {| QuoteIn.tokenIn := SwapIn.tokenIn params;
                          QuoteIn.tokenOut := SwapIn.tokenOut params;
                          QuoteIn.fee := SwapIn.fee params;
                          QuoteIn.amountIn := Z.quot (SwapIn.amountIn params * 10) 100;
                          QuoteIn.sqrtPriceLimitX96 := 0 |}
               | _ => True
               end)) t.
Proof.
  unfold diagnose. simpl.
  repeat run_step; split; try reflexivity; repeat constructor.
Qed.

(** [fetchTokenInfo] always issues its three reads (symbol, name, decimals,
    in this order, of the address it was given), also when an earlier one is
    rejected.  It returns exactly when all three resolve, with a descriptor
    made of the three values, the address and the configured chain id;
    otherwise it logs once and fails with the token-info error for that
    address. *)
Theorem fetchTokenInfo_reads (W : Type) (h : chain W) (w : W) (tokenAddress : addr) :
  let '(o, _, t) := run h (fetchTokenInfo tokenAddress) w in
  exists rs rn rd,
    firstn 3 t = [Called (Token_symbol tokenAddress) rs;
                  Called (Token_name tokenAddress) rn;
                  Called (Token_decimals tokenAddress) rd]
    /\ ((exists s n d,
           rs = Resolved s /\ rn = Resolved n /\ rd = Resolved d
           /\ List.length t = 3%nat
           /\ o = inl {| chainId := CHAIN_ID; address := tokenAddress; decimals := d;
                         symbol := s; name := n; isToken := true |})
        \/ (o = inr (TokenInfoFailed tokenAddress)
            /\ exists m,
                 (rs = Rejected m \/ rn = Rejected m \/ rd = Rejected m)
                 /\ skipn 3 t
                    = [Logged ("Error fetching token info for " ++ tokenAddress)
                         (Rejection m)])).
Proof.
  unfold fetchTokenInfo, all3. simpl.
  repeat run_step; do 3 eexists; (split; [reflexivity|]).
  1: left; do 3 eexists; repeat split; reflexivity.
  all: right; split; [reflexivity|]; eexists; split; [|reflexivity]; auto.
Qed.

(** ** The locator over a fixed table *)

Lemma rethrow_outcome {W A : Type} (h : chain W) (p : prog A) (m : string) (w : W) :
  fst (fst (run h (try_catch p (fun error => LogError m error (Throw error))) w))
  = fst (fst (run h p w)).
Proof.
  rewrite run_try_catch. destruct (run h p w) as [[[a|e] w1] t1]; reflexivity.
Qed.

Ltac table_step factory Hfix :=
  match goal with
  | H : (factory ?a ?b ?f =? ZeroAddress)%string = _
    |- context [(factory ?a ?b ?f =? ZeroAddress)%string] => rewrite H; simpl
  | |- context [(factory ?a ?b ?f =? ZeroAddress)%string] =>
      destruct (factory a b f =? ZeroAddress)%string eqn:?; simpl
  | |- _ => progress (rewrite ?Hfix; simpl)
  end.

(** Over a fixed factory table, the pool locator resolves a pair to the
    first pool of the table in its lookup order ((in, out) at 500, 3000, 10000,
    then (out, in) at 500, 3000, 10000), whatever the other tiers hold: it
    returns, or fails, as reading the details of that pool does, and fails
    with the no-pool error when the table has none of the six. *)
Theorem getPoolInfo_first_pool
  (W : Type) (h : chain W) (factory : addr -> addr -> Z -> addr) (w : W)
  (tokenIn tokenOut : TokenInfo) :
  fixedFactory h factory ->
  fst (fst (run h (getPoolInfo tokenIn tokenOut) w))
  = match firstPool factory (address tokenIn) (address tokenOut) with
    | Some (pool, _) => fst (fst (run h (poolDetails tokenIn pool) w))
    | None => inr (NoPoolExists (symbol tokenIn) (symbol tokenOut))
    end.
Proof.
  intros Hfix. unfold fixedFactory in Hfix.
  unfold getPoolInfo, firstPool, sixLookups, feeTiers.
  pose proof (fun p m w => rethrow_outcome h (poolDetails tokenIn p) m w) as Hr.
  set (d := poolDetails tokenIn) in *. clearbody d.
  simpl.
  repeat table_step factory Hfix.
  all: try reflexivity.
  all: match goal with
       | |- fst (fst ?X) = _ =>
           match X with
           | context [run ?h (try_catch (?d ?p) ?g) ?w1] =>
               pose proof (Hr p "Error retrieving pool information" w1) as Hp;
               destruct (run h (try_catch (d p) g) w1) as [[? ?] ?];
               simpl in *; exact Hp
           end
       end.
Qed.

Lemma getPoolInfo_first_pool_witness :
  fixedFactory (ledger lopsided) lopsided
  /\ firstPool lopsided TOKEN_OUT_ADDRESS TOKEN_IN_ADDRESS = Some (pool500, 500)
  /\ fst (fst (run (ledger lopsided) (getPoolInfo tokenUSDC tokenWETH) (world0 0 0)))
     = match firstPool lopsided (address tokenUSDC) (address tokenWETH) with
       | Some (pool, _) =>
           fst (fst (run (ledger lopsided) (poolDetails tokenUSDC pool) (world0 0 0)))
       | None => inr (NoPoolExists (symbol tokenUSDC) (symbol tokenWETH))
       end.
Proof.
  split; [intros a b fee w; reflexivity|]. split; [vm_compute; reflexivity|].
  apply (getPoolInfo_first_pool World (ledger lopsided) lopsided).
  intros a b fee w. reflexivity.
Defined.

(** ** The first old script *)

Lemma old_minimum_zero tolerance perMille quoted m :
  Js.BigInt_floor ((1 - tolerance) * 1000)%float = Some perMille ->
  -1000 < perMille < 1000 ->
  Old.amountOutMinimum tolerance quoted = Some m -> m = 0.
Proof.
  intros HF Hr. unfold Old.amountOutMinimum, Old.slippageFactor. rewrite HF.
  assert (Hq : Z.quot perMille 1000 = 0) by (apply Z.quot_small_iff; lia).
  rewrite Hq, Z.mul_0_r. intros H. inversion H. reflexivity.
Qed.

Lemma sat_old_executeSwap R (P : forall T : Type, call T -> Prop) params :
  (forall (T : Type) (c : call T), benign T c -> P T c) ->
  P _ (Signer_sendTransaction
         {| to := SWAP_ROUTER_CONTRACT_ADDRESS; data := ExactInputSingle params;
            gasLimit := 500000 |}) ->
  sat R P (fun _ => True) (OldScript.executeSwap params).
Proof.
  intros HP Hs. unfold OldScript.executeSwap.
  apply sat_try_catch; [|intros e; simpl; exact I].
  apply sat_bind_any; [apply sat_await_any, Hs|]. intros hash.
  apply sat_await_any, HP. exact I.
Qed.

Lemma sat_old_main R (P : forall T : Type, call T -> Prop) parseUnits signer tolerance
  swapAmount :
  (forall (T : Type) (c : call T), benign T c -> P T c) ->
  (forall p, P _ (Quoter_quoteExactInputSingle p)) ->
  (forall params quoted,
     Old.amountOutMinimum tolerance quoted = Some (SwapIn.amountOutMinimum params) ->
     P _ (Signer_sendTransaction
            {| to := SWAP_ROUTER_CONTRACT_ADDRESS; data := ExactInputSingle params;
               gasLimit := 500000 |})) ->
  sat R P (fun _ => True) (OldScript.main parseUnits signer tolerance swapAmount).
Proof.
  intros HP Hq Hs. unfold OldScript.main.
  apply sat_try_catch; [|intros e; simpl; exact I].
  apply sat_bind_any; [apply sat_logBalances, HP|]. intros initialBalances.
  apply sat_bind_any; [apply sat_wrapEthToWeth, HP|]. intros _.
  apply sat_bind_any; [apply sat_settle|]. intros amountIn.
  apply sat_bind_any; [apply sat_approveToken, HP|]. intros _.
  apply sat_bind_any; [apply sat_getPoolInfo, HP|]. intros pool.
  apply sat_bind_any.
  { eapply sat_weaken; [|apply sat_getQuote, Hq]. auto. }
  intros quoted.
  eapply sat_bind; [apply sat_bigint|]. intros minimum Hminimum.
  apply sat_bind_any; [apply sat_await_any, HP; exact I|]. intros now.
  apply sat_bind_any.
  { apply sat_old_executeSwap; [exact HP|]. apply (Hs _ quoted). exact Hminimum. }
  intros receipt.
  apply sat_bind_any; [apply sat_logBalances, HP|]. intros finalBalances.
  simpl. exact I.
Qed.

(** The first old script submits its swap without any slippage protection:
    on every chain, whenever the per-mille factor the doubles compute lies
    strictly between -1000 and 1000 (as 950 does, for its configured 0.05),
    every exact-input swap its [main] hands to the signer has
    [amountOutMinimum = 0]. *)
Theorem old_main_swap_unprotected
  (W : Type) (h : chain W) (w : W) parseUnits signer tolerance swapAmount
  (perMille : Z) :
  Js.BigInt_floor ((1 - tolerance) * 1000)%float = Some perMille ->
  -1000 < perMille < 1000 ->
  Forall (calledWith minimumIsZero)
    (snd (run h (OldScript.main parseUnits signer tolerance swapAmount) w)).
Proof.
  intros HF Hr.
  apply (sat_run anyReply minimumIsZero (fun _ => True)); [apply answers_anyReply|].
  apply sat_old_main.
  - intros T c. destruct c; simpl; auto; try contradiction.
    destruct (data tx); auto; contradiction.
  - intros p. exact I.
  - intros params quoted Hm. simpl.
    apply (old_minimum_zero tolerance perMille quoted _ HF Hr Hm).
Qed.

Lemma old_main_swap_unprotected_witness :
  Js.BigInt_floor ((1 - Old.SLIPPAGE_TOLERANCE) * 1000)%float = Some 950
  /\ -1000 < 950 < 1000
  /\ map (fun tx => match data tx with
                    | ExactInputSingle p => Some (SwapIn.amountOutMinimum p)
                    | _ => None
                    end)
       (sent (snd (run (ledgerOn (address OldScript.WETH) onePool)
                     (OldScript.main parseWhole wallet0 Old.SLIPPAGE_TOLERANCE 1%float)
                     (world0 0 0))))
     = [None; None; Some 0]
  /\ Forall (calledWith minimumIsZero)
       (snd (run (ledgerOn (address OldScript.WETH) onePool)
               (OldScript.main parseWhole wallet0 Old.SLIPPAGE_TOLERANCE 1%float)
               (world0 0 0))).
Proof.
  split; [vm_compute; reflexivity|]. split; [lia|]. split; [vm_compute; reflexivity|].
  apply (old_main_swap_unprotected World (ledgerOn (address OldScript.WETH) onePool)
           (world0 0 0) parseWhole wallet0 Old.SLIPPAGE_TOLERANCE 1%float 950).
  - vm_compute. reflexivity.
  - lia.
Defined.

Lemma wrapEthToWeth_sends_one parseUnits wallet ethAmount weth :
  within anyTransaction 1 (wrapEthToWeth parseUnits wallet ethAmount weth).
Proof.
  unfold wrapEthToWeth. destruct (parseUnits ethAmount 18); within_crush.
Qed.

Lemma wrapEthToWeth_sends_only_deposit sel parseUnits wallet ethAmount weth :
  (forall value gas, sel {| to := weth; data := Deposit value; gasLimit := gas |} = false) ->
  within sel 0 (wrapEthToWeth parseUnits wallet ethAmount weth).
Proof.
  intros Hsel. unfold wrapEthToWeth. destruct (parseUnits ethAmount 18); simpl; auto.
  intros [b|m]; simpl; auto.
  destruct (b <? v); simpl; auto. rewrite Hsel. within_crush.
Qed.

Lemma old_executeSwap_sends_one params :
  within anyTransaction 1 (OldScript.executeSwap params).
Proof. unfold OldScript.executeSwap. within_crush. Qed.

Lemma old_executeSwap_sends_only_swap sel params :
  (forall gas, sel {| to := SWAP_ROUTER_CONTRACT_ADDRESS;
                      data := ExactInputSingle params; gasLimit := gas |} = false) ->
  within sel 0 (OldScript.executeSwap params).
Proof.
  intros Hsel. unfold OldScript.executeSwap. simpl. rewrite Hsel. within_crush.
Qed.

Lemma within_old_main sel (nw na nx : nat) parseUnits signer tolerance swapAmount :
  (forall wallet ethAmount weth,
     within sel nw (wrapEthToWeth parseUnits wallet ethAmount weth)) ->
  (forall tokenInfo amount wallet, within sel na (approveToken tokenInfo amount wallet)) ->
  (forall params, within sel nx (OldScript.executeSwap params)) ->
  within sel (nw + (na + nx)) (OldScript.main parseUnits signer tolerance swapAmount).
Proof.
  intros Hw Ha Hx. unfold OldScript.main.
  apply within_try_catch with (n := (nw + (na + nx))%nat) (m := 0%nat);
    [|intros e; simpl; exact I|lia].
  apply within_bind with (n := 0%nat) (m := (nw + (na + nx))%nat);
    [apply logBalances_sends_nothing| |lia]. intros initialBalances.
  apply within_bind with (n := nw) (m := (na + nx)%nat); [apply Hw| |lia]. intros _.
  apply within_bind with (n := 0%nat) (m := (na + nx)%nat);
    [apply settle_sends_nothing| |lia]. intros amountIn.
  apply within_bind with (n := na) (m := nx); [apply Ha| |lia]. intros _.
  apply within_bind with (n := 0%nat) (m := nx);
    [apply getPoolInfo_sends_nothing| |lia]. intros pool.
  apply within_bind with (n := 0%nat) (m := nx);
    [apply getQuote_sends_nothing| |lia]. intros quoted.
  apply within_bind with (n := 0%nat) (m := nx);
    [apply bigint_sends_nothing| |lia]. intros minimum.
  apply within_bind with (n := 0%nat) (m := nx);
    [apply within_await_read; reflexivity| |lia]. intros now.
  apply within_bind with (n := nx) (m := 0%nat); [apply Hx| |lia]. intros receipt.
  apply within_bind with (n := 0%nat) (m := 0%nat);
    [apply logBalances_sends_nothing|intros b; simpl; exact I|lia].
Qed.

(** On every chain, one run of the first old script's [main] submits at most
    one deposit, at most one approval and at most one swap, and nothing else:
    unlike the fuller variant it never submits a swap twice. *)
Theorem old_main_transaction_budget
  (W : Type) (h : chain W) (w : W) parseUnits signer tolerance swapAmount :
  let t := snd (run h (OldScript.main parseUnits signer tolerance swapAmount) w) in
  (List.length (filter isDeposit (sent t)) <= 1)%nat
  /\ (approvals t <= 1)%nat
  /\ (List.length (filter isExactInput (sent t)) <= 1)%nat
  /\ (List.length (filter isExactOutput (sent t)) <= 0)%nat
  /\ (List.length (sent t) <= 3)%nat.
Proof.
  assert (Hany : forall l : list transaction, filter anyTransaction l = l).
  { induction l as [|x l IH]; simpl; [reflexivity|]. rewrite IH. reflexivity. }
  intros t. unfold approvals. repeat split.
  - eapply Nat.le_trans; [apply within_run|].
    + apply (within_old_main isDeposit 1 0 0).
      * intros. apply within_any, wrapEthToWeth_sends_one.
      * intros. apply approveToken_sends_no_swap. reflexivity.
      * intros. apply old_executeSwap_sends_only_swap. reflexivity.
    + simpl; lia.
  - eapply Nat.le_trans; [apply within_run|].
    + apply (within_old_main isApproval 0 1 0).
      * intros. apply wrapEthToWeth_sends_only_deposit. reflexivity.
      * intros. apply within_any, approveToken_sends_one.
      * intros. apply old_executeSwap_sends_only_swap. reflexivity.
    + simpl; lia.
  - eapply Nat.le_trans; [apply within_run|].
    + apply (within_old_main isExactInput 0 0 1).
      * intros. apply wrapEthToWeth_sends_only_deposit. reflexivity.
      * intros. apply approveToken_sends_no_swap. reflexivity.
      * intros. apply within_any, old_executeSwap_sends_one.
    + simpl; lia.
  - eapply Nat.le_trans; [apply within_run|].
    + apply (within_old_main isExactOutput 0 0 0).
      * intros. apply wrapEthToWeth_sends_only_deposit. reflexivity.
      * intros. apply approveToken_sends_no_swap. reflexivity.
      * intros. apply old_executeSwap_sends_only_swap. reflexivity.
    + simpl; lia.
  - rewrite <- (Hany (sent t)).
    eapply Nat.le_trans; [apply within_run|].
    + apply (within_old_main anyTransaction 1 1 1).
      * intros. apply wrapEthToWeth_sends_one.
      * intros. apply approveToken_sends_one.
      * intros. apply old_executeSwap_sends_one.
    + simpl; lia.
Qed.

(** ** The exact-output fallback *)

Lemma sent_app (t1 t2 : list event) : sent (t1 ++ t2) = (sent t1 ++ sent t2)%list.
Proof. unfold sent. apply flat_map_app. Qed.

Lemma approveToken_sends_no_exact_output
  (W : Type) (h : chain W) (w : W) tokenInfo amount wallet tx p :
  In tx (sent (snd (run h (approveToken tokenInfo amount wallet) w))) ->
  data tx <> ExactOutputSingle p.
Proof.
  unfold approveToken, checkBalance, sent. simpl.
  repeat run_step; intros Hin; try contradiction.
  all: destruct Hin as [<-|[]]; simpl; discriminate.
Qed.

(** The fallback never submits an exact-output swap before the approver has
    returned for exactly the maximum input of that swap: on every chain, if
    the trace of [tryExactOutputSwap] holds an exact-output swap, then it is
    addressed to the router with a gas limit of 1000000, nothing was sent
    before the approver ran, and the approver returned for the swap's
    [amountInMaximum]. *)
Theorem tryExactOutputSwap_approves_first
  (W : Type) (h : chain W) (w : W) parseUnits signer tolerance poolFee desired
  tokenIn tokenOut (tx : transaction) (p : SwapOut.t) :
  In tx (sent (snd (run h (tryExactOutputSwap parseUnits signer tolerance poolFee
                             desired tokenIn tokenOut) w))) ->
  data tx = ExactOutputSingle p ->
  to tx = SWAP_ROUTER_CONTRACT_ADDRESS /\ gasLimit tx = 1000000
  /\ exists before approving after r w0 w1,
       snd (run h (tryExactOutputSwap parseUnits signer tolerance poolFee desired
                     tokenIn tokenOut) w)
       = (before ++ approving ++ after)%list
       /\ sent before = []
       /\ run h (approveToken tokenIn (SwapOut.amountInMaximum p) signer) w0
          = (inl r, w1, approving).
Proof.
  assert (Hno : forall w2 adjusted o3 w3 t3,
             run h (approveToken tokenIn adjusted signer) w2 = (o3, w3, t3) ->
             In tx (sent t3) -> data tx = ExactOutputSingle p -> False).
  { intros w2 adjusted o3 w3 t3 E3 Hin Hd.
    pose proof (approveToken_sends_no_exact_output W h w2 tokenIn adjusted signer tx p)
      as H.
    rewrite E3 in H. apply (H Hin Hd). }
  unfold tryExactOutputSwap. rewrite run_try_catch.
  rewrite run_bind.
  destruct (parseUnits desired (decimals tokenOut)) as [amountOut|m]; simpl settle;
    cbn [run]; [|simpl; intros []].
  rewrite run_bind.
  destruct (run h (await (Quoter_quoteExactOutputSingle _)) w)
    as [[[amountInMaximum|e1] w1] t1] eqn:E1.
  2: { unfold await in E1. simpl in E1.
       destruct (h _ (Quoter_quoteExactOutputSingle _) w) as [[v|m] w'];
         simpl in E1; inversion E1; subst. simpl. intros []. }
  assert (Ht1 : sent t1 = []).
  { unfold await in E1. simpl in E1.
    destruct (h _ (Quoter_quoteExactOutputSingle _) w) as [[v|m] w'];
      simpl in E1; inversion E1; subst; reflexivity. }
  rewrite run_bind.
  destruct (adjustedAmountInMaximum tolerance amountInMaximum) as [adjusted|];
    cbn [bigint run].
  2: { cbn [fst snd]. intros Hin. exfalso.
       rewrite ?sent_app, ?Ht1 in Hin. simpl in Hin. exact Hin. }
  rewrite run_bind.
  destruct (run h (await Date_now) w1) as [[[now|e2] w2] t2] eqn:E2.
  2: { unfold await in E2. simpl in E2.
       destruct (h _ Date_now w1) as [[v|m] w']; simpl in E2; inversion E2; subst.
       cbn [fst snd run]. intros Hin. exfalso.
       rewrite ?sent_app, ?Ht1 in Hin. simpl in Hin. exact Hin. }
  assert (Ht2 : sent t2 = []).
  { unfold await in E2. simpl in E2.
    destruct (h _ Date_now w1) as [[v|m] w']; simpl in E2; inversion E2; subst;
      reflexivity. }
  rewrite run_bind.
  destruct (run h (approveToken tokenIn adjusted signer) w2) as [[[r|e3] w3] t3] eqn:E3.
  2: { cbn [fst snd run]. intros Hin Hd. exfalso.
       rewrite ?sent_app, ?Ht1, ?Ht2 in Hin. simpl in Hin. rewrite ?app_nil_r in Hin.
       apply (Hno _ _ _ _ _ E3 Hin Hd). }
  simpl.
  destruct (h _ (Signer_sendTransaction _) w3) as [[hash|m] w4]; simpl;
    [destruct (h _ (Tx_wait hash) w4) as [[receipt|m] w5]; simpl|].
  all: intros Hin Hd.
  all: rewrite ?sent_app, ?Ht1, ?Ht2 in Hin; simpl in Hin; rewrite ?app_nil_r in Hin.
  all: apply in_app_or in Hin.
  all: destruct Hin as [Hin'|Hin'];
       [exfalso; exact (Hno _ _ _ _ _ E3 Hin' Hd)|].
  all: simpl in Hin'; destruct Hin' as [<-|[]]; simpl in Hd; inversion Hd; subst; simpl.
  all: split; [reflexivity|]; split; [reflexivity|].
  all: exists (t1 ++ t2)%list, t3; eexists; exists r, w2, w3.
  all: split; [rewrite <- ?app_assoc; reflexivity|].
  all: split; [rewrite sent_app, Ht1, Ht2; reflexivity|exact E3].
Qed.

Lemma tryExactOutputSwap_approves_first_witness :
  In {| to := SWAP_ROUTER_CONTRACT_ADDRESS; data := ExactOutputSingle fallbackSwap;
        gasLimit := 1000000 |}
     (sent (snd (run (ledger onePool)
                   (tryExactOutputSwap parseWhole wallet0 SLIPPAGE_TOLERANCE 3000
                      10%float tokenWETH tokenUSDC) (world0 (10 ^ 20) 0))))
  /\ exists before approving after r w0 w1,
       snd (run (ledger onePool)
              (tryExactOutputSwap parseWhole wallet0 SLIPPAGE_TOLERANCE 3000
                 10%float tokenWETH tokenUSDC) (world0 (10 ^ 20) 0))
       = (before ++ approving ++ after)%list
       /\ sent before = []
       /\ run (ledger onePool)
            (approveToken tokenWETH (SwapOut.amountInMaximum fallbackSwap) wallet0) w0
          = (inl r, w1, approving).
Proof.
  assert (Hin : In {| to := SWAP_ROUTER_CONTRACT_ADDRESS;
                      data := ExactOutputSingle fallbackSwap; gasLimit := 1000000 |}
                  (sent (snd (run (ledger onePool)
                                (tryExactOutputSwap parseWhole wallet0 SLIPPAGE_TOLERANCE
                                   3000 10%float tokenWETH tokenUSDC)
                                (world0 (10 ^ 20) 0))))).
  { vm_compute. right. left. reflexivity. }
  split; [exact Hin|].
  exact (proj2 (proj2 (tryExactOutputSwap_approves_first World (ledger onePool)
                         (world0 (10 ^ 20) 0) parseWhole wallet0 SLIPPAGE_TOLERANCE 3000
                         10%float tokenWETH tokenUSDC _ fallbackSwap Hin eq_refl))).
Defined.
